(** * zod-backend: the Express server of [src/server/server.ts]

    A shallow embedding of the five routes of the server and of the part of
    zod 3 (schemas, issues, [parse]) and of the JavaScript runtime (strings,
    numbers, [Date]) that the routes rest on.

    zod is the library of the 3.x line (the routes read [error.errors]); its
    behaviour is written down here as its [_parse] methods have it: a type
    check first, then every check of the schema in order, every member of an
    object and every element of an array parsed whatever the others gave.

    Conventions of the embedding.
    - A JavaScript value that came out of [JSON.parse] (a request body, the
      upstream response) is a [value]. Numbers are the finite ones, as
      rationals; how [Number] writes one is modelled for the safe integers
      (below 2^53 in magnitude), whose digits are exact, and left to the
      runtime for every other number. Strings are sequences of code units,
      here the 8-bit ones (U+0000 to U+00FF), so that [String.length] is
      [.length]; a string with a code unit from U+0100 on is outside the
      model, and so is what [toLowerCase] and the email pattern make of it.
    - An object is its member list in insertion order; a member is looked up
      by its first occurrence ([JSON.parse] leaves no repeated key).
    - An exception is a result: [completion] is [Normal] or [Throw]; a
      [try]/[catch] is a [match].
    - zod hands the issues of a parse around in a shared list; here every
      parser returns the issues it added, in the order it added them. *)

From Stdlib Require Import List String Ascii ZArith QArith Bool Lia DecimalString.
Import ListNotations.
Local Open Scope string_scope.
#[local] Set Warnings "-register-all".
#[local] Set Warnings "-automation".


(** ** JavaScript values *)

Inductive value : Type :=
| VUndefined
| VNull
| VBool (b : bool)
| VNum (x : Q)
| VStr (s : string)
| VArr (items : list value)
| VObj (members : list (string * value)).

(** [data[k]] on the member list of an object: [undefined] when absent. *)
Fixpoint member (k : string) (members : list (string * value)) : value :=
  match members with
  | [] => VUndefined
  | (k', v) :: rest => if String.eqb k k' then v else member k rest
  end.

(** [k in data] for an object. *)
Definition has_key (k : string) (data : value) : bool :=
  match data with
  | VObj members => existsb (fun kv => String.eqb k (fst kv)) members
  | _ => false
  end.

(** *** Exceptions *)

Inductive ZodIssueCode := invalid_type | invalid_union | too_small | too_big | invalid_string.

(** A path element: an object key or an array index. *)
Inductive key := KStr (s : string) | KIdx (i : nat).

(** The members every zod issue has. The members that depend on the code
    ([expected], [received], [minimum], [unionErrors], ...) are left out: no
    route reads them. *)
Record ZodIssue := mkIssue { code : ZodIssueCode; path : list key; message : string }.

Inductive exn :=
| ZodError (errors : list ZodIssue)
| TypeError
| RangeError
| SyntaxError.

Inductive completion (A : Type) :=
| Normal (a : A)
| Throw (e : exn).
Arguments Normal {A} a.
Arguments Throw {A} e.

Definition bind {A B} (c : completion A) (k : A -> completion B) : completion B :=
  match c with
  | Normal a => k a
  | Throw e => Throw e
  end.

Notation "x <- c ;; k" := (bind c (fun x => k))
  (at level 61, c at next level, right associativity).

(** ** Strings and numbers of the runtime *)

Definition code_unit (c : ascii) : N := N_of_ascii c.

Definition in_range (lo hi : N) (c : ascii) : bool :=
  ((lo <=? code_unit c) && (code_unit c <=? hi))%N.

Definition is_upper (c : ascii) : bool := in_range 65 90 c.
Definition is_lower (c : ascii) : bool := in_range 97 122 c.
Definition is_digit (c : ascii) : bool := in_range 48 57 c.
Definition is_alpha (c : ascii) : bool := is_upper c || is_lower c.
Definition is_alnum (c : ascii) : bool := is_alpha c || is_digit c.

(** [String.prototype.toLowerCase] on one code unit below U+0100: the letters
    A-Z, and the Latin-1 capitals U+00C0..U+00DE but the sign U+00D7. (From
    U+0100 on other units have a lower case below U+0100, the Kelvin sign
    U+212A for one; the strings of the model have none of them.) *)
Definition lower_unit (c : ascii) : ascii :=
  if is_upper c || (in_range 192 222 c && negb (code_unit c =? 215)%N)
  then ascii_of_N (code_unit c + 32)
  else c.

Fixpoint toLowerCase (s : string) : string :=
  match s with
  | EmptyString => EmptyString
  | String c rest => String (lower_unit c) (toLowerCase rest)
  end.

Fixpoint forall_units (p : ascii -> bool) (s : string) : bool :=
  match s with
  | EmptyString => true
  | String c rest => p c && forall_units p rest
  end.

(** A code unit of ASCII, U+0000 to U+007F. *)
Definition is_ascii (c : ascii) : bool := (code_unit c <? 128)%N.

(** A string of ASCII code units only. *)
Definition ascii_only (s : string) : bool := forall_units is_ascii s.

(** [Array.prototype.join]. *)
Fixpoint join (sep : string) (parts : list string) : string :=
  match parts with
  | [] => ""
  | [p] => p
  | p :: rest => p ++ sep ++ join sep rest
  end.

(** The decimal digits of an integer, as [Number.prototype.toString] writes
    a safe integer: below 2^53 in magnitude every integer is a double of its
    own, and the shortest digits that read back as it are all of its digits. *)
Definition decimal (z : Z) : string := NilZero.string_of_int (Z.to_int z).

Definition isInteger (x : Q) : bool := (Qnum x mod Zpos (Qden x) =? 0)%Z.

(** The integer an integral [x] is. *)
Definition integral_part (x : Q) : Z := (Qnum x / Zpos (Qden x))%Z.

Definition Qlt_bool (x y : Q) : bool := negb (Qle_bool y x).

(** ** zod: parse results, issues and schema types *)

(** zod's [getParsedType] on the values [JSON.parse] gives. *)
Inductive ZodParsedType := TUndefined | TNull | TBoolean | TNumber | TString | TArray | TObject.

Definition getParsedType (data : value) : ZodParsedType :=
  match data with
  | VUndefined => TUndefined
  | VNull => TNull
  | VBool _ => TBoolean
  | VNum _ => TNumber
  | VStr _ => TString
  | VArr _ => TArray
  | VObj _ => TObject
  end.

Definition type_name (t : ZodParsedType) : string :=
  match t with
  | TUndefined => "undefined"
  | TNull => "null"
  | TBoolean => "boolean"
  | TNumber => "number"
  | TString => "string"
  | TArray => "array"
  | TObject => "object"
  end.

(** The default error map on an [invalid_type] issue. *)
Definition invalid_type_message (expected : string) (received : ZodParsedType) : string :=
  match received with
  | TUndefined => "Required"
  | _ => "Expected " ++ expected ++ ", received " ++ type_name received
  end.

Definition invalid_type_issue (p : list key) (expected : string) (data : value) : ZodIssue :=
  mkIssue invalid_type p (invalid_type_message expected (getParsedType data)).

(** What [_parse] returns: a status ([valid], [dirty], [aborted]) with the
    value unless aborted, and the issues added to the context on the way. *)
Inductive ParseReturn (A : Type) :=
| OK (a : A)
| DIRTY (a : A) (issues : list ZodIssue)
| INVALID (issues : list ZodIssue).
Arguments OK {A} a.
Arguments DIRTY {A} a issues.
Arguments INVALID {A} issues.

Definition issues_of {A} (r : ParseReturn A) : list ZodIssue :=
  match r with
  | OK _ => []
  | DIRTY _ issues => issues
  | INVALID issues => issues
  end.

(** A value with the issues found on it: [valid] when there are none. *)
Definition with_issues {A} (a : A) (issues : list ZodIssue) : ParseReturn A :=
  match issues with
  | [] => OK a
  | _ => DIRTY a issues
  end.

Definition map_return {A B} (f : A -> B) (r : ParseReturn A) : ParseReturn B :=
  match r with
  | OK a => OK (f a)
  | DIRTY a issues => DIRTY (f a) issues
  | INVALID issues => INVALID issues
  end.

(** Two parsed members put together, as [ParseStatus.mergeObjectSync] and
    [mergeArray] do: all members were parsed, so all issues are kept; one
    aborted member aborts the whole, a dirty one makes it dirty. *)
Definition merge {A B C} (f : A -> B -> C) (ra : ParseReturn A) (rb : ParseReturn B)
  : ParseReturn C :=
  match ra, rb with
  | OK a, OK b => OK (f a b)
  | OK a, DIRTY b ib => DIRTY (f a b) ib
  | DIRTY a ia, OK b => DIRTY (f a b) ia
  | DIRTY a ia, DIRTY b ib => DIRTY (f a b) (ia ++ ib)
  | _, _ => INVALID (issues_of ra ++ issues_of rb)
  end.

(** A schema with output type [A]: its [_parse], given the path and the data. *)
Definition ZodType (A : Type) := list key -> value -> ParseReturn A.

(** *** z.string() and its checks *)

Inductive ZodStringCheck :=
| str_min (value : nat) (msg : string)
| str_max (value : nat) (msg : string)
| str_email (msg : string)
| str_toLowerCase.

(** The substring before and after the first [c]. *)
Fixpoint split_first (c : ascii) (s : string) : option (string * string) :=
  match s with
  | EmptyString => None
  | String c' rest =>
      if Ascii.eqb c c' then Some (EmptyString, rest)
      else match split_first c rest with
           | Some (before, after) => Some (String c' before, after)
           | None => None
           end
  end.

Fixpoint split_all (c : ascii) (s : string) : list string :=
  match s with
  | EmptyString => [EmptyString]
  | String c' rest =>
      if Ascii.eqb c c' then EmptyString :: split_all c rest
      else match split_all c rest with
           | first :: others => String c' first :: others
           | [] => [String c' EmptyString]
           end
  end.

Definition is_one_of (cs : string) (c : ascii) : bool :=
  existsb (Ascii.eqb c) (list_ascii_of_string cs).

Fixpoint has_dot_dot (s : string) : bool :=
  match s with
  | String "."%char (String "."%char _) => true
  | String _ rest => has_dot_dot rest
  | EmptyString => false
  end.

Definition starts_with_dot (s : string) : bool :=
  match s with
  | String "."%char _ => true
  | _ => false
  end.

Definition last_unit (s : string) : option ascii :=
  match rev (list_ascii_of_string s) with
  | c :: _ => Some c
  | [] => None
  end.

(** The local part: units of the class [A-Z0-9_'+-.], the last one of the
    class [A-Z0-9_+-], both read with the [i] flag. *)
Definition email_local (s : string) : bool :=
  forall_units (fun c => is_alnum c || is_one_of "_'+-." c) s
  && match last_unit s with
     | Some c => is_alnum c || is_one_of "_+-" c
     | None => false
     end.

(** One label of the domain: a unit of [A-Z0-9], then units of [A-Z0-9-]. *)
Definition email_label (s : string) : bool :=
  match s with
  | String c rest => is_alnum c && forall_units (fun c => is_alnum c || is_one_of "-" c) rest
  | EmptyString => false
  end.

(** The domain: one label or more, each closed by a dot, then two letters
    or more. No class has the dot, so the labels are the pieces between the
    dots. *)
Definition email_domain (s : string) : bool :=
  match rev (split_all "."%char s) with
  | tld :: ((_ :: _) as labels) =>
      forall_units is_alpha tld && (2 <=? String.length tld)%nat && forallb email_label labels
  | _ => false
  end.

(** zod 3's [emailRegex] (3.23), tested on [s]. With L, M, D and E for the
    classes [A-Z0-9_'+-.], [A-Z0-9_+-], [A-Z0-9] and [A-Z0-9-] it reads
    ^ (?! dot) (?! any* dot dot) L* M @ (D E* dot)+ [A-Z]{2,} $ with the [i]
    flag. No class has the at sign, so the one of the pattern is the first
    of [s]; a string with a line end in it matches no class either. *)
Definition emailRegex_test (s : string) : bool :=
  negb (starts_with_dot s)
  && negb (has_dot_dot s)
  && match split_first "@"%char s with
     | Some (local, domain) => email_local local && email_domain domain
     | None => false
     end.

(** One check of [ZodString._parse] on the current data: the data after it
    and the issue it adds, if any. *)
Definition string_check (p : list key) (check : ZodStringCheck) (data : string)
  : string * list ZodIssue :=
  match check with
  | str_min n msg =>
      (data, if (String.length data <? n)%nat then [mkIssue too_small p msg] else [])
  | str_max n msg =>
      (data, if (n <? String.length data)%nat then [mkIssue too_big p msg] else [])
  | str_email msg =>
      (data, if emailRegex_test data then [] else [mkIssue invalid_string p msg])
  | str_toLowerCase => (toLowerCase data, [])
  end.

Fixpoint string_checks (p : list key) (checks : list ZodStringCheck) (data : string)
  : string * list ZodIssue :=
  match checks with
  | [] => (data, [])
  | check :: rest =>
      let (data1, issues1) := string_check p check data in
      let (data2, issues2) := string_checks p rest data1 in
      (data2, (issues1 ++ issues2)%list)
  end.

Definition z_string (checks : list ZodStringCheck) : ZodType string :=
  fun p data =>
    match data with
    | VStr s => let (s', issues) := string_checks p checks s in with_issues s' issues
    | _ => INVALID [invalid_type_issue p "string" data]
    end.

(** *** z.number() and its checks *)

Inductive ZodNumberCheck :=
| num_int
| num_min (value : Q) (msg : string)
| num_max (value : Q) (msg : string).

Definition number_check (p : list key) (check : ZodNumberCheck) (data : Q) : list ZodIssue :=
  match check with
  | num_int =>
      if isInteger data then [] else [mkIssue invalid_type p "Expected integer, received float"]
  | num_min v msg => if Qlt_bool data v then [mkIssue too_small p msg] else []
  | num_max v msg => if Qlt_bool v data then [mkIssue too_big p msg] else []
  end.

Definition z_number (checks : list ZodNumberCheck) : ZodType Q :=
  fun p data =>
    match data with
    | VNum x => with_issues x (flat_map (fun check => number_check p check x) checks)
    | _ => INVALID [invalid_type_issue p "number" data]
    end.

(** *** z.union([a, b]) *)

Definition z_union {A B} (a : ZodType A) (b : ZodType B) : ZodType (A + B) :=
  fun p data =>
    match a p data with
    | OK x => OK (inl x)
    | ra =>
        match b p data with
        | OK y => OK (inr y)
        | rb =>
            match ra, rb with
            | DIRTY x issues, _ => DIRTY (inl x) issues
            | _, DIRTY y issues => DIRTY (inr y) issues
            | _, _ => INVALID [mkIssue invalid_union p "Invalid input"]
            end
        end
    end.

(** *** z.object({...}) *)

(** The members of a shape, parsed one after the other in the order of the
    shape; unknown keys of the data are stripped. *)
Definition ZodShape (A : Type) := list key -> list (string * value) -> ParseReturn A.

Definition shape_of {A} (a : A) : ZodShape A := fun _ _ => OK a.

Definition shape_field {A B} (sh : ZodShape (A -> B)) (k : string) (schema : ZodType A)
  : ZodShape B :=
  fun p members =>
    merge (fun f a => f a) (sh p members) (schema (p ++ [KStr k])%list (member k members)).

Definition z_object {A} (sh : ZodShape A) : ZodType A :=
  fun p data =>
    match data with
    | VObj members => sh p members
    | _ => INVALID [invalid_type_issue p "object" data]
    end.

(** *** z.array(element) *)

Fixpoint parse_items {A} (element : ZodType A) (p : list key) (i : nat) (items : list value)
  : ParseReturn (list A) :=
  match items with
  | [] => OK []
  | item :: rest =>
      merge cons (element (p ++ [KIdx i])%list item) (parse_items element p (S i) rest)
  end.

Definition z_array {A} (element : ZodType A) : ZodType (list A) :=
  fun p data =>
    match data with
    | VArr items => parse_items element p 0 items
    | _ => INVALID [invalid_type_issue p "array" data]
    end.

(** *** .optional() and .default(value) *)

Definition z_optional {A} (inner : ZodType A) : ZodType (option A) :=
  fun p data =>
    match data with
    | VUndefined => OK None
    | _ => map_return Some (inner p data)
    end.

Definition z_default {A} (inner : ZodType A) (defaultValue : value) : ZodType A :=
  fun p data =>
    match data with
    | VUndefined => inner p defaultValue
    | _ => inner p data
    end.

(** *** schema.parse(data) *)

Definition parse {A} (schema : ZodType A) (data : value) : completion A :=
  match schema [] data with
  | OK a => Normal a
  | r => Throw (ZodError (issues_of r))
  end.

(** ** Date: time values, [Date.parse] and [toISOString]

    A time value is a number of milliseconds since the epoch, in UTC. The
    definitions are those of ECMA-262 (Day, DayFromYear, YearFromTime,
    MonthFromTime, DateFromTime, MakeDay, MakeTime, MakeDate, TimeClip),
    over [Z]. *)

Local Open Scope Z_scope.

Definition msPerDay : Z := 86400000.
Definition msPerHour : Z := 3600000.
Definition msPerMinute : Z := 60000.
Definition msPerSecond : Z := 1000.

Definition Day (t : Z) : Z := t / msPerDay.
Definition TimeWithinDay (t : Z) : Z := t mod msPerDay.

Definition leap_year (y : Z) : bool :=
  ((y mod 4 =? 0) && negb (y mod 100 =? 0)) || (y mod 400 =? 0).

Definition DaysInYear (y : Z) : Z := if leap_year y then 366 else 365.

Definition DayFromYear (y : Z) : Z :=
  365 * (y - 1970) + (y - 1969) / 4 - (y - 1901) / 100 + (y - 1601) / 400.

(** The year of day number [d]: the largest [y] with [DayFromYear y <= d],
    found one step at most from the mean-year estimate. *)
Definition YearFromDay (d : Z) : Z :=
  let y := 1970 + (d * 400) / 146097 in
  if d <? DayFromYear y then y - 1
  else if DayFromYear (y + 1) <=? d then y + 1
  else y.

Definition YearFromTime (t : Z) : Z := YearFromDay (Day t).
Definition InLeapYear (t : Z) : Z := if leap_year (YearFromTime t) then 1 else 0.
Definition DayWithinYear (t : Z) : Z := Day t - DayFromYear (YearFromTime t).

(** The day within the year on which month [m] (0 to 11) starts. *)
Definition month_start (leap : Z) (m : Z) : Z :=
  match m with
  | 0 => 0
  | 1 => 31
  | 2 => 59 + leap
  | 3 => 90 + leap
  | 4 => 120 + leap
  | 5 => 151 + leap
  | 6 => 181 + leap
  | 7 => 212 + leap
  | 8 => 243 + leap
  | 9 => 273 + leap
  | 10 => 304 + leap
  | 11 => 334 + leap
  | _ => 365 + leap
  end.

Definition month_of_day (leap : Z) (d : Z) : Z :=
  if d <? 31 then 0
  else if d <? 59 + leap then 1
  else if d <? 90 + leap then 2
  else if d <? 120 + leap then 3
  else if d <? 151 + leap then 4
  else if d <? 181 + leap then 5
  else if d <? 212 + leap then 6
  else if d <? 243 + leap then 7
  else if d <? 273 + leap then 8
  else if d <? 304 + leap then 9
  else if d <? 334 + leap then 10
  else 11.

Definition MonthFromTime (t : Z) : Z := month_of_day (InLeapYear t) (DayWithinYear t).

Definition DateFromTime (t : Z) : Z :=
  DayWithinYear t - month_start (InLeapYear t) (MonthFromTime t) + 1.

Definition HourFromTime (t : Z) : Z := (t / msPerHour) mod 24.
Definition MinFromTime (t : Z) : Z := (t / msPerMinute) mod 60.
Definition SecFromTime (t : Z) : Z := (t / msPerSecond) mod 60.
Definition msFromTime (t : Z) : Z := t mod msPerSecond.

Definition MakeTime (hour min sec ms : Z) : Z :=
  hour * msPerHour + min * msPerMinute + sec * msPerSecond + ms.

(** [MakeDay] for a month in 0..11. *)
Definition MakeDay (year month date : Z) : Z :=
  DayFromYear year + month_start (if leap_year year then 1 else 0) month + date - 1.

Definition MakeDate (day time : Z) : Z := day * msPerDay + time.

Definition TimeClip (t : Z) : option Z :=
  if Z.abs t <=? 8640000000000000 then Some t else None.

Definition DaysInMonth (year month : Z) : Z :=
  let leap := if leap_year year then 1 else 0 in
  month_start leap (month + 1) - month_start leap month.

(** *** Digits *)

Definition digit_unit (n : Z) : ascii := ascii_of_N (48 + Z.to_N n).

(** The last [width] decimal digits of [n], zero-padded. *)
Fixpoint pad (width : nat) (n : Z) : string :=
  match width with
  | O => EmptyString
  | S w => (pad w (n / 10) ++ String (digit_unit (n mod 10)) EmptyString)%string
  end.

Fixpoint digits_value (acc : Z) (s : string) : Z :=
  match s with
  | EmptyString => acc
  | String c rest => digits_value (10 * acc + (Z.of_N (code_unit c) - 48)) rest
  end.

(** The number written by the [len] digits of [s] from [start] on. *)
Definition number_at (start len : nat) (s : string) : option Z :=
  let sub := substring start len s in
  if (String.length sub =? len)%nat && forall_units is_digit sub
  then Some (digits_value 0 sub)
  else None.

Definition unit_at_is (i : nat) (c : ascii) (s : string) : bool :=
  match get i s with
  | Some c' => Ascii.eqb c c'
  | None => false
  end.

Definition option_bind {A B} (o : option A) (k : A -> option B) : option B :=
  match o with
  | Some a => k a
  | None => None
  end.

Notation "x <-? o ;; k" := (option_bind o (fun x => k))
  (at level 61, o at next level, right associativity).

Definition guard (b : bool) : option unit := if b then Some tt else None.

(** *** The date-time string format

    The part of the ECMA-262 format read here: [YYYY-MM-DD], alone (UTC) or
    followed by [THH:mm:ss] or [THH:mm:ss.sss] and an offset, [Z] or
    [+HH:mm] or [-HH:mm]. Every element must be in range ([DD] within the
    month). *)

(** [YYYY-MM-DD] to the day number. *)
Definition parse_date (s : string) : option Z :=
  y <-? number_at 0 4 s ;;
  m <-? number_at 5 2 s ;;
  d <-? number_at 8 2 s ;;
  _ <-? guard (unit_at_is 4 "-" s && unit_at_is 7 "-" s && (String.length s =? 10)%nat) ;;
  _ <-? guard ((1 <=? m) && (m <=? 12) && (1 <=? d) && (d <=? DaysInMonth y (m - 1))) ;;
  Some (MakeDay y (m - 1) d).

(** [HH:mm:ss] or [HH:mm:ss.sss] to the time within the day. *)
Definition parse_time (s : string) : option Z :=
  h <-? number_at 0 2 s ;;
  mi <-? number_at 3 2 s ;;
  sec <-? number_at 6 2 s ;;
  ms <-? (if (String.length s =? 8)%nat then Some 0
          else if (String.length s =? 12)%nat && unit_at_is 8 "." s then number_at 9 3 s
          else None) ;;
  _ <-? guard (unit_at_is 2 ":" s && unit_at_is 5 ":" s) ;;
  _ <-? guard ((h <=? 23) && (mi <=? 59) && (sec <=? 59)) ;;
  Some (MakeTime h mi sec ms).

(** [Z], [+HH:mm] or [-HH:mm] to the offset from UTC. *)
Definition parse_offset (s : string) : option Z :=
  match s with
  | String "Z" EmptyString => Some 0
  | String sign rest =>
      h <-? number_at 0 2 rest ;;
      mi <-? number_at 3 2 rest ;;
      _ <-? guard (unit_at_is 2 ":" rest && (String.length rest =? 5)%nat) ;;
      _ <-? guard ((h <=? 23) && (mi <=? 59)) ;;
      if Ascii.eqb sign "+" then Some (h * msPerHour + mi * msPerMinute)
      else if Ascii.eqb sign "-" then Some (- (h * msPerHour + mi * msPerMinute))
      else None
  | EmptyString => None
  end.

Definition drop (n : nat) (s : string) : string := substring n (String.length s - n) s.

Definition parse_date_time (s : string) : option Z :=
  day <-? parse_date (substring 0 10 s) ;;
  match drop 10 s with
  | EmptyString => Some (MakeDate day 0)
  | String "T" rest =>
      let n := if unit_at_is 8 "." rest then 12%nat else 8%nat in
      time <-? parse_time (substring 0 n rest) ;;
      offset <-? parse_offset (drop n rest) ;;
      Some (MakeDate day time - offset)
  | _ => None
  end.

(** [toISOString] on a valid time value: four digits for the years 0 to 9999,
    a sign and six digits for the others. *)
Definition iso_year (y : Z) : string :=
  let sign : string := if y <? 0 then "-"%string else "+"%string in
  if (0 <=? y) && (y <=? 9999) then pad 4 y
  else (sign ++ pad 6 (Z.abs y))%string.

Definition iso_date (t : Z) : string :=
  (iso_year (YearFromTime t) ++ "-" ++ pad 2 (MonthFromTime t + 1) ++ "-"
   ++ pad 2 (DateFromTime t))%string.

Definition iso_time (t : Z) : string :=
  (pad 2 (HourFromTime t) ++ ":" ++ pad 2 (MinFromTime t) ++ ":" ++ pad 2 (SecFromTime t)
   ++ "." ++ pad 3 (msFromTime t))%string.

Definition iso_string (t : Z) : string := (iso_date t ++ "T" ++ iso_time t ++ "Z")%string.

(** [s.split(c)[0]]. *)
Definition split_0 (c : ascii) (s : string) : string :=
  match split_first c s with
  | Some (before, _) => before
  | None => s
  end.

Local Close Scope Z_scope.

(** ** The schemas of the server *)

Notation "sh <& k ::= schema" := (shape_field sh k schema)
  (at level 45, left associativity, k at level 9, schema at level 9).

(** What the upstream API answers, as [RandomUserApiResponseSchema] types it.
    The schema of one record, written in place in the source, has the name
    [PersonSchema] here. *)
Module RandomUser.

Record Name := { first : string; last : string }.
Record Location := { country : string; city : string; postcode : string + Q }.
Record Login := { username : string }.
Record Registered := { date : string }.
Record Person :=
  { name : Name; location : Location; login : Login; registered : Registered }.
Record ApiResponse := { results : list Person }.

Definition PersonSchema : ZodType Person :=
  z_object (shape_of Build_Person
    <& "name" ::= (z_object (shape_of Build_Name
         <& "first" ::= (z_string [])
         <& "last" ::= (z_string [])))
    <& "location" ::= (z_object (shape_of Build_Location
         <& "country" ::= (z_string [])
         <& "city" ::= (z_string [])
         <& "postcode" ::= (z_union (z_string []) (z_number []))))
    <& "login" ::= (z_object (shape_of Build_Login
         <& "username" ::= (z_string [])))
    <& "registered" ::= (z_object (shape_of Build_Registered
         <& "date" ::= (z_string [])))).

Definition RandomUserApiResponseSchema : ZodType ApiResponse :=
  z_object (shape_of Build_ApiResponse <& "results" ::= (z_array PersonSchema)).

End RandomUser.

(** The body of [POST /users], as [UserSchema] types it, and the entries of
    the [details] the route answers. *)
Module Users.

Record User := { name : string; age : option Q; email : string }.

(** The three members of [UserSchema], each under a name of its own. *)
Definition name_schema : ZodType string :=
  z_string [str_min 3 "Name must be at least 3 characters";
            str_max 12 "Name must be at most 12 characters"].

Definition age_schema : ZodType (option Q) :=
  z_default
    (z_optional (z_number [num_int;
                           num_min 18 "Age must be at least 18";
                           num_max 100 "Age must be at most 100"]))
    (VNum 28).

Definition email_schema : ZodType string :=
  z_string [str_email "Must be a valid email"; str_toLowerCase].

Definition UserSchema : ZodType User :=
  z_object (shape_of Build_User
    <& "name" ::= name_schema
    <& "age" ::= age_schema
    <& "email" ::= email_schema).

Record Detail := { field : string; message : string }.

End Users.

(** ** The routes *)

(** The JSON bodies the routes answer, one constructor per object literal of
    the source. [InvalidResponse] is [{error, details: error.errors}]: its
    details are the issues themselves, each with its path as an array of
    keys. [ValidationFailed] is [{error, details: [{field, message}]}]: its
    details carry the path joined with dots. *)
Inductive body :=
| Message (message : string)
| PersonResult (fullName country : string)
| AddressResult (city postcode : string)
| LoginResult (username registeredDate summary : string)
| ValidatedUser (validatedUser : Users.User)
| Failure (error : string)
| InvalidResponse (error : string) (details : list ZodIssue)
| ValidationFailed (error : string) (details : list Users.Detail).

Record response := { status : nat; body_of : body }.

(** [res.json(result)] and [res.status(n).json(result)]. *)
Definition json (result : body) : response := {| status := 200; body_of := result |}.
Definition status_json (n : nat) (result : body) : response :=
  {| status := n; body_of := result |}.

(** What the two awaits on the upstream API end in: no response, a body that
    is not JSON, or the parsed data. *)
Inductive upstream :=
| NoResponse
| NotJson
| Json (data : value).

Definition await (up : upstream) : completion value :=
  match up with
  | NoResponse => Throw TypeError
  | NotJson => Throw SyntaxError
  | Json data => Normal data
  end.

(** [o.p] where [o] may be [undefined]: a [TypeError] then. *)
Definition prop {A B} (o : option A) (p : A -> B) : completion B :=
  match o with
  | Some a => Normal (p a)
  | None => Throw TypeError
  end.

Definition key_toString (k : key) : string :=
  match k with
  | KStr s => s
  | KIdx i => decimal (Z.of_nat i)
  end.

Definition ping : response := json (Message "pong").

Definition random_person (up : upstream) : response :=
  let attempt :=
    data <- await up ;;
    validatedData <- parse RandomUser.RandomUserApiResponseSchema data ;;
    let person := nth_error (RandomUser.results validatedData) 0 in
    person_name <- prop person RandomUser.name ;;
    person_location <- prop person RandomUser.location ;;
    Normal (PersonResult
              (RandomUser.first person_name ++ " " ++ RandomUser.last person_name)
              (RandomUser.country person_location)) in
  match attempt with
  | Normal result => json result
  | Throw (ZodError errors) =>
      status_json 500 (InvalidResponse "Invalid response from RandomUser API" errors)
  | Throw _ => status_json 500 (Failure "Failed to fetch random person")
  end.

(** [err => ({ field: err.path.join('.'), message: err.message })]. *)
Definition detail_of (err : ZodIssue) : Users.Detail :=
  {| Users.field := join "." (map key_toString (path err));
     Users.message := message err |}.

(** The handler of [POST /users], on the [req.body] that [express.json] left.
    The middleware is in its strict mode: of a JSON body it hands on an object
    or an array, and answers a body of another JSON kind itself, before the
    handler. *)
Definition post_users (req_body : value) : response :=
  match parse Users.UserSchema req_body with
  | Normal validatedUser => status_json 201 (ValidatedUser validatedUser)
  | Throw (ZodError errors) =>
      status_json 400 (ValidationFailed "Validation failed" (map detail_of errors))
  | Throw _ => status_json 500 (Failure "Internal server error")
  end.

(** The two parts of the runtime that are not modelled: how [Number] writes a
    number that is not a safe integer (the shortest digits that read back as
    the same double: for 2^64 they are 18446744073709552000), and what
    [Date.parse] makes of a string outside the format read by
    [parse_date_time] (local-time forms and the formats of the
    implementation's own). *)
Section Runtime.

Variable float_toString : Q -> string.
Variable host_date_parse : string -> option Z.

Definition Number_toString (x : Q) : string :=
  if isInteger x && (Z.abs (integral_part x) <? 2 ^ 53)%Z
  then decimal (integral_part x)
  else float_toString x.

(** [v.toString()] on a string or a number. *)
Definition toString (v : string + Q) : string :=
  match v with
  | inl s => s
  | inr x => Number_toString x
  end.

Definition Date_parse (s : string) : option Z :=
  match parse_date_time s with
  | Some t => Some t
  | None => host_date_parse s
  end.

(** [new Date(s)]: the time value, or none for an invalid date. *)
Definition new_Date (s : string) : option Z :=
  option_bind (Date_parse s) TimeClip.

Definition toISOString (d : option Z) : completion string :=
  match d with
  | Some t => Normal (iso_string t)
  | None => Throw RangeError
  end.

Definition random_address (up : upstream) : response :=
  let attempt :=
    data <- await up ;;
    validatedData <- parse RandomUser.RandomUserApiResponseSchema data ;;
    let person := nth_error (RandomUser.results validatedData) 0 in
    person_location <- prop person RandomUser.location ;;
    Normal (AddressResult
              (RandomUser.city person_location)
              (toString (RandomUser.postcode person_location))) in
  match attempt with
  | Normal result => json result
  | Throw (ZodError errors) =>
      status_json 500 (InvalidResponse "Invalid response from RandomUser API" errors)
  | Throw _ => status_json 500 (Failure "Failed to fetch random address")
  end.

Definition random_login (up : upstream) : response :=
  let attempt :=
    data <- await up ;;
    validatedData <- parse RandomUser.RandomUserApiResponseSchema data ;;
    let person := nth_error (RandomUser.results validatedData) 0 in
    person_registered <- prop person RandomUser.registered ;;
    let registeredDate := new_Date (RandomUser.date person_registered) in
    isoString <- toISOString registeredDate ;;
    let formattedDate := split_0 "T" isoString in
    person_login <- prop person RandomUser.login ;;
    Normal (LoginResult
              (RandomUser.username person_login)
              formattedDate
              (RandomUser.username person_login
               ++ " (registered on " ++ formattedDate ++ ")")) in
  match attempt with
  | Normal result => json result
  | Throw (ZodError errors) =>
      status_json 500 (InvalidResponse "Invalid response from RandomUser API" errors)
  | Throw _ => status_json 500 (Failure "Failed to fetch random login")
  end.

End Runtime.

(** ** Notions the statements below are written with *)

(** The value of a valid parse. *)
Definition ok_of {A} (r : ParseReturn A) : option A :=
  match r with
  | OK a => Some a
  | _ => None
  end.

(** [data.k] on data that came out of [JSON.parse]. *)
Definition get (k : string) (data : value) : value :=
  match data with
  | VObj members => member k members
  | _ => VUndefined
  end.

(** [data.results[0]], when the array has it. *)
Definition first_result (data : value) : option value :=
  match get "results" data with
  | VArr (item :: _) => Some item
  | _ => None
  end.

(** An issue lies under a path when its own path goes on from there. *)
Definition under (q : list key) (issue : ZodIssue) : Prop :=
  exists suffix, path issue = (q ++ suffix)%list.

(** The value a validated postcode was read from. *)
Definition postcode_value (pc : string + Q) : value :=
  match pc with
  | inl s => VStr s
  | inr x => VNum x
  end.

Definition is_string (v : value) : bool :=
  match v with
  | VStr _ => true
  | _ => false
  end.

Definition is_string_or_number (v : value) : bool :=
  match v with
  | VStr _ | VNum _ => true
  | _ => false
  end.

(** The shape of a Person record in the words of the specification: name.first
    and name.last, location.country and location.city, login.username and
    registered.date are strings, location.postcode is a string or a number. *)
Definition person_shape (item : value) : bool :=
  is_string (get "first" (get "name" item))
  && is_string (get "last" (get "name" item))
  && is_string (get "country" (get "location" item))
  && is_string (get "city" (get "location" item))
  && is_string_or_number (get "postcode" (get "location" item))
  && is_string (get "username" (get "login" item))
  && is_string (get "date" (get "registered" item)).

(** The constraints of UserInput in the words of the specification: a name
    of 3 to 12 units, an age that is absent or an integer from 18 to 100, an
    email that the email pattern accepts. *)
Definition name_valid (v : value) : bool :=
  match v with
  | VStr s => (3 <=? String.length s)%nat && (String.length s <=? 12)%nat
  | _ => false
  end.

Definition age_valid (v : value) : bool :=
  match v with
  | VUndefined => true
  | VNum x => isInteger x && Qle_bool 18 x && Qle_bool x 100
  | _ => false
  end.

Definition email_valid (v : value) : bool :=
  match v with
  | VStr s => emailRegex_test s
  | _ => false
  end.

(** The issues of the three members of a body, in the order of the schema. *)
Definition user_issues (members : list (string * value)) : list ZodIssue :=
  (issues_of (Users.name_schema [KStr "name"] (member "name" members))
   ++ issues_of (Users.age_schema [KStr "age"] (member "age" members))
   ++ issues_of (Users.email_schema [KStr "email"] (member "email" members)))%list.

(** The fields of a body that break their constraint, in the order of the
    schema. *)
Definition violated_fields (members : list (string * value)) : list string :=
  ((if name_valid (member "name" members) then [] else ["name"])
   ++ (if age_valid (member "age" members) then [] else ["age"])
   ++ (if email_valid (member "email" members) then [] else ["email"]))%list.

(** A runtime with nothing of its own: [Date.parse] reads the standard
    format only, and [Number] is asked for safe integers only. *)
Definition standard_dates_only : string -> option Z := fun _ => None.
Definition integers_only : Q -> string := fun _ => EmptyString.

(** The record of the specification's example, with its postcode and its
    registration date left open, and an upstream response of given records. *)
Definition ada (pc : value) (registered_date : string) : value :=
  VObj [("name", VObj [("first", VStr "Ada"); ("last", VStr "Lovelace")]);
        ("location", VObj [("country", VStr "UK"); ("city", VStr "London");
                           ("postcode", pc)]);
        ("login", VObj [("username", VStr "ada")]);
        ("registered", VObj [("date", VStr registered_date)])].

Definition api_response (records : list value) : value :=
  VObj [("results", VArr records)].

(** The value of a valid parse of a schema does not depend on the path the
    schema is reached by. *)
Definition path_free {A} (schema : ZodType A) : Prop :=
  forall p p' data, ok_of (schema p data) = ok_of (schema p' data).

Definition shape_path_free {A} (sh : ZodShape A) : Prop :=
  forall p p' members, ok_of (sh p members) = ok_of (sh p' members).

(** A result keeps to [p]: its issues lie under [p], no two at one path, and
    there is one at least unless the result is valid. *)
Definition keeps_to {A} (p : list key) (r : ParseReturn A) : Prop :=
  Forall (under p) (issues_of r)
  /\ NoDup (map path (issues_of r))
  /\ (ok_of r = None -> issues_of r <> []).

Definition located {A} (schema : ZodType A) : Prop :=
  forall p data, keeps_to p (schema p data).

(** A shape whose issues lie under the members named by [keys]. *)
Definition shape_located {A} (keys : list string) (sh : ZodShape A) : Prop :=
  forall p members,
    Forall (fun issue => exists k, In k keys /\ under (p ++ [KStr k]) issue)
      (issues_of (sh p members))
    /\ NoDup (map path (issues_of (sh p members)))
    /\ (ok_of (sh p members) = None -> issues_of (sh p members) <> []).

(** The violated fields of an upstream response, in the words of the
    specification: a field is violated when it is not of the type the Person
    schema asks of it. A field that is to hold an object, or the array of
    records, and does not is violated itself, and nothing is asked of the
    fields inside it. Each violated field is named by its path, once, in the
    order of the schema. *)
Definition is_object (v : value) : bool :=
  match v with
  | VObj _ => true
  | _ => false
  end.

(** The field at [p], which is to satisfy [expected]. *)
Definition violated (expected : value -> bool) (p : list key) (v : value)
  : list (list key) :=
  if expected v then [] else [p].

(** The field at [p], which is to hold an object, with the violated fields
    [inside] it when it does. *)
Definition violated_within (p : list key) (v : value) (inside : list (list key))
  : list (list key) :=
  if is_object v then inside else [p].

(** The violated fields of the record at [p]. *)
Definition violated_person (p : list key) (item : value) : list (list key) :=
  let name := get "name" item in
  let location := get "location" item in
  let login := get "login" item in
  let registered := get "registered" item in
  violated_within p item
    (violated_within (p ++ [KStr "name"]) name
       (violated is_string (p ++ [KStr "name"; KStr "first"]) (get "first" name)
        ++ violated is_string (p ++ [KStr "name"; KStr "last"]) (get "last" name))
     ++ violated_within (p ++ [KStr "location"]) location
          (violated is_string (p ++ [KStr "location"; KStr "country"])
             (get "country" location)
           ++ violated is_string (p ++ [KStr "location"; KStr "city"])
                (get "city" location)
           ++ violated is_string_or_number (p ++ [KStr "location"; KStr "postcode"])
                (get "postcode" location))
     ++ violated_within (p ++ [KStr "login"]) login
          (violated is_string (p ++ [KStr "login"; KStr "username"])
             (get "username" login))
     ++ violated_within (p ++ [KStr "registered"]) registered
          (violated is_string (p ++ [KStr "registered"; KStr "date"])
             (get "date" registered)))%list.

(** The violated fields of the records from the index [i] on. *)
Fixpoint violated_records (i : nat) (items : list value) : list (list key) :=
  match items with
  | [] => []
  | item :: rest =>
      (violated_person [KStr "results"; KIdx i] item ++ violated_records (S i) rest)%list
  end.

Definition violated_paths (data : value) : list (list key) :=
  violated_within [] data
    match get "results" data with
    | VArr items => violated_records 0 items
    | _ => [[KStr "results"]]
    end.

(** An upstream response with three violated fields: in its first record the
    first name is a number and the postcode a boolean, and its second record
    is a number. *)
Definition three_deviations : value :=
  api_response
    [ VObj [("name", VObj [("first", VNum 1); ("last", VStr "Lovelace")]);
            ("location", VObj [("country", VStr "UK"); ("city", VStr "London");
                               ("postcode", VBool true)]);
            ("login", VObj [("username", VStr "ada")]);
            ("registered", VObj [("date", VStr "2020-05-01T00:00:00Z")])];
      VNum 7 ].

(** The date-only form YYYY-MM-DD of the specification, for the UTC calendar
    date of a time value: the year in four digits, the month counted from 1
    and the day of the month in two digits each. *)
Definition YYYY_MM_DD (t : Z) : string :=
  pad 4 (YearFromTime t) ++ "-" ++ pad 2 (MonthFromTime t + 1) ++ "-"
  ++ pad 2 (DateFromTime t).

(** No unit of [s] is the letter T. *)
Definition no_T (s : string) : bool := forall_units (fun c => negb (Ascii.eqb "T" c)) s.

(** The issue of a postcode that is neither a string nor a number. *)
Definition postcode_issue : ZodIssue :=
  mkIssue invalid_union [KStr "results"; KIdx 0; KStr "location"; KStr "postcode"]
    "Invalid input".

(** The shape of an upstream response in the words of the specification: an
    object whose [results] is an array of records of the Person shape. *)
Definition response_shape (data : value) : bool :=
  match get "results" data with
  | VArr items => forallb person_shape items
  | _ => false
  end.

(** What [res.json(validatedUser)] sends, as [JSON.parse] reads it back: the
    members of the validated object in their order, a member whose value is
    [undefined] left out. *)
Definition user_json (u : Users.User) : value :=
  VObj ([("name", VStr (Users.name u))]
        ++ match Users.age u with
           | Some a => [("age", VNum a)]
           | None => []
           end
        ++ [("email", VStr (Users.email u))])%list.

(** The messages of the type check of a schema that expects [expected], one
    for each type the data may have. *)
Definition type_messages (expected : string) : list string :=
  map (invalid_type_message expected)
    [TUndefined; TNull; TBoolean; TNumber; TString; TArray; TObject].

(** The messages that the issues of an upstream response may carry. *)
Definition upstream_messages : list string :=
  ("Invalid input"
   :: type_messages "object" ++ type_messages "array" ++ type_messages "string")%list.

(** The messages that the details of [POST /users] may carry. *)
Definition user_messages : list string :=
  (["Name must be at least 3 characters"; "Name must be at most 12 characters";
    "Expected integer, received float"; "Age must be at least 18";
    "Age must be at most 100"; "Must be a valid email"]
   ++ type_messages "object" ++ type_messages "string" ++ type_messages "number")%list.

Definition one_of (allowed : list string) (m : string) : bool :=
  existsb (String.eqb m) allowed.

(** Every issue of the result has one of the allowed messages. *)
Definition speaks {A} (allowed : list string) (r : ParseReturn A) : bool :=
  forallb (fun issue => one_of allowed (message issue)) (issues_of r).

(** * Properties *)

(** ** Parse results *)

Lemma issues_of_merge {A B C} (f : A -> B -> C) ra rb :
  issues_of (merge f ra rb) = (issues_of ra ++ issues_of rb)%list.
Proof.
  destruct ra, rb; cbn; rewrite ?app_nil_r; reflexivity.
Qed.

Lemma ok_of_merge {A B C} (f : A -> B -> C) ra rb :
  ok_of (merge f ra rb) =
  match ok_of ra, ok_of rb with
  | Some a, Some b => Some (f a b)
  | _, _ => None
  end.
Proof.
  destruct ra, rb; reflexivity.
Qed.

Lemma ok_of_OK {A} (r : ParseReturn A) a : ok_of r = Some a <-> r = OK a.
Proof.
  destruct r; cbn; split; intros H; inversion H; reflexivity.
Qed.

Lemma merge_OK {A B C} (f : A -> B -> C) ra rb c :
  merge f ra rb = OK c -> exists a b, ra = OK a /\ rb = OK b /\ c = f a b.
Proof.
  destruct ra, rb; cbn; intros H; inversion H. eauto.
Qed.

Lemma ok_of_with_issues {A} (a : A) issues :
  ok_of (with_issues a issues) = match issues with [] => Some a | _ => None end.
Proof.
  destruct issues; reflexivity.
Qed.

Lemma issues_of_with_issues {A} (a : A) issues :
  issues_of (with_issues a issues) = issues.
Proof.
  destruct issues; reflexivity.
Qed.

Lemma parse_Normal {A} (schema : ZodType A) data a :
  parse schema data = Normal a <-> schema [] data = OK a.
Proof.
  unfold parse. destruct (schema [] data); split; intros H; inversion H; reflexivity.
Qed.

Lemma parse_Throw {A} (schema : ZodType A) data e :
  parse schema data = Throw e ->
  e = ZodError (issues_of (schema [] data)) /\ ok_of (schema [] data) = None.
Proof.
  unfold parse. destruct (schema [] data); intros H; inversion H; split; reflexivity.
Qed.

(** ** The value of a valid parse does not depend on the path *)

Create HintDb zod.

Lemma string_checks_path p p' checks s :
  fst (string_checks p checks s) = fst (string_checks p' checks s)
  /\ List.length (snd (string_checks p checks s)) = List.length (snd (string_checks p' checks s)).
Proof.
  revert s. induction checks as [|check rest IH]; intros s; [split; reflexivity|].
  cbn [string_checks].
  assert (Hc : fst (string_check p check s) = fst (string_check p' check s)
               /\ List.length (snd (string_check p check s))
                  = List.length (snd (string_check p' check s))).
  { destruct check; cbn; split; try reflexivity;
      match goal with |- context [if ?b then _ else _] => destruct b end; reflexivity. }
  destruct (string_check p check s) as [d1 i1], (string_check p' check s) as [d1' i1'].
  cbn in Hc. destruct Hc as [-> Hlen].
  specialize (IH d1').
  destruct (string_checks p rest d1') as [d2 i2], (string_checks p' rest d1') as [d2' i2'].
  cbn in *. rewrite !List.length_app. destruct IH as [-> ->]. split; congruence.
Qed.

Lemma path_free_z_string checks : path_free (z_string checks).
Proof.
  intros p p' data. destruct data; try reflexivity. cbn.
  pose proof (string_checks_path p p' checks s) as [Hv Hi].
  destruct (string_checks p checks s) as [d i], (string_checks p' checks s) as [d' i'].
  cbn in *. subst d'. rewrite !ok_of_with_issues.
  destruct i, i'; cbn in Hi; congruence.
Qed.

Lemma number_checks_path p p' checks x :
  List.length (flat_map (fun check => number_check p check x) checks)
  = List.length (flat_map (fun check => number_check p' check x) checks).
Proof.
  induction checks as [|check rest IH]; [reflexivity|].
  cbn [flat_map]. rewrite !List.length_app, IH. f_equal.
  destruct check; cbn;
    match goal with |- context [if ?b then _ else _] => destruct b end; reflexivity.
Qed.

Lemma path_free_z_number checks : path_free (z_number checks).
Proof.
  intros p p' data. destruct data; try reflexivity. cbn.
  pose proof (number_checks_path p p' checks x) as Hi.
  rewrite !ok_of_with_issues.
  destruct (flat_map _ checks), (flat_map _ checks); cbn in Hi; congruence.
Qed.

Lemma path_free_z_union {A B} (a : ZodType A) (b : ZodType B) :
  path_free a -> path_free b -> path_free (z_union a b).
Proof.
  intros Ha Hb p p' data. unfold z_union.
  specialize (Ha p p' data). specialize (Hb p p' data).
  destruct (a p data), (a p' data); cbn in Ha; try discriminate Ha;
    try (injection Ha as ->); try reflexivity;
    destruct (b p data), (b p' data); cbn in Hb; try discriminate Hb;
    try (injection Hb as ->); reflexivity.
Qed.

Lemma shape_path_free_of {A} (a : A) : shape_path_free (shape_of a).
Proof. intros p p' members. reflexivity. Qed.

Lemma shape_path_free_field {A B} (sh : ZodShape (A -> B)) k (schema : ZodType A) :
  shape_path_free sh -> path_free schema -> shape_path_free (shape_field sh k schema).
Proof.
  intros Hsh Hs p p' members. unfold shape_field.
  rewrite !ok_of_merge, (Hsh p p'), (Hs (p ++ [KStr k])%list (p' ++ [KStr k])%list).
  reflexivity.
Qed.

Lemma path_free_z_object {A} (sh : ZodShape A) :
  shape_path_free sh -> path_free (z_object sh).
Proof.
  intros Hsh p p' data. destruct data; try reflexivity. apply Hsh.
Qed.

Lemma parse_items_path {A} (element : ZodType A) :
  path_free element ->
  forall items p p' i i',
    ok_of (parse_items element p i items) = ok_of (parse_items element p' i' items).
Proof.
  intros He items. induction items as [|item rest IH]; intros p p' i i'; [reflexivity|].
  cbn [parse_items]. rewrite !ok_of_merge, (IH p p' (S i) (S i')),
    (He (p ++ [KIdx i])%list (p' ++ [KIdx i'])%list).
  reflexivity.
Qed.

Lemma path_free_z_array {A} (element : ZodType A) :
  path_free element -> path_free (z_array element).
Proof.
  intros He p p' data. destruct data; try reflexivity. apply parse_items_path, He.
Qed.

#[export] Hint Resolve path_free_z_string path_free_z_number path_free_z_union
  shape_path_free_of shape_path_free_field path_free_z_object path_free_z_array : zod.

Lemma path_free_PersonSchema : path_free RandomUser.PersonSchema.
Proof. unfold RandomUser.PersonSchema. auto 20 with zod. Qed.

(** ** Where the issues of a parse lie *)

Lemma under_app p q issue : under (p ++ q) issue -> under p issue.
Proof.
  intros [suffix H]. exists (q ++ suffix)%list. rewrite H, app_assoc. reflexivity.
Qed.

Lemma under_refl p c m : under p (mkIssue c p m).
Proof. exists []. cbn. rewrite app_nil_r. reflexivity. Qed.

Lemma keeps_to_single {A} p c m (r : ParseReturn A) :
  issues_of r = [mkIssue c p m] -> keeps_to p r.
Proof.
  intros H. unfold keeps_to. rewrite H. repeat split.
  - constructor; [apply under_refl | constructor].
  - cbn. constructor; [intros [] | constructor].
  - discriminate.
Qed.

Lemma keeps_to_OK {A} p (a : A) : keeps_to p (OK a).
Proof.
  repeat split; cbn; [constructor | constructor | discriminate].
Qed.

Lemma keeps_to_issues {A B} p (r : ParseReturn A) (r' : ParseReturn B) :
  issues_of r' = issues_of r -> ok_of r = None -> keeps_to p r -> keeps_to p r'.
Proof.
  intros E N (Hu & Hn & Hs). unfold keeps_to. rewrite E.
  repeat split; [exact Hu | exact Hn | intros _; exact (Hs N)].
Qed.

Lemma located_z_string : located (z_string []).
Proof.
  intros p data. destruct data; cbn;
    solve [apply keeps_to_OK | eapply keeps_to_single; reflexivity].
Qed.

Lemma located_z_number : located (z_number []).
Proof.
  intros p data. destruct data; cbn;
    solve [apply keeps_to_OK | eapply keeps_to_single; reflexivity].
Qed.

Lemma located_z_union {A B} (a : ZodType A) (b : ZodType B) :
  located a -> located b -> located (z_union a b).
Proof.
  intros Ha Hb p data. unfold z_union.
  specialize (Ha p data). specialize (Hb p data).
  destruct (a p data) as [x|x ia|ia]; [apply keeps_to_OK | |];
    destruct (b p data) as [y|y ib|ib]; try apply keeps_to_OK;
    try (eapply keeps_to_single; reflexivity).
  - eapply keeps_to_issues; [| |exact Ha]; reflexivity.
  - eapply keeps_to_issues; [| |exact Ha]; reflexivity.
  - eapply keeps_to_issues; [| |exact Hb]; reflexivity.
Qed.

Lemma shape_located_of {A} (a : A) : shape_located [] (shape_of a).
Proof.
  intros p members. cbn. repeat split; [constructor | constructor | discriminate].
Qed.

Lemma shape_located_field {A B} keys (sh : ZodShape (A -> B)) k (schema : ZodType A) :
  shape_located keys sh -> located schema -> ~ In k keys ->
  shape_located (k :: keys) (shape_field sh k schema).
Proof.
  intros Hsh Hs Hk p members. unfold shape_field.
  destruct (Hsh p members) as (Hu1 & Hn1 & Hs1).
  destruct (Hs (p ++ [KStr k])%list (member k members)) as (Hu2 & Hn2 & Hs2).
  rewrite issues_of_merge, ok_of_merge. repeat split.
  - apply Forall_app. split.
    + eapply Forall_impl; [|exact Hu1]. intros issue (k' & Hin & H).
      exists k'. split; [right; exact Hin | exact H].
    + eapply Forall_impl; [|exact Hu2]. intros issue H.
      exists k. split; [left; reflexivity | exact H].
  - rewrite map_app. apply NoDup_app; [exact Hn1 | exact Hn2 |].
    intros q Hq1 Hq2.
    apply in_map_iff in Hq1 as (i1 & <- & Hi1). apply in_map_iff in Hq2 as (i2 & E & Hi2).
    rewrite Forall_forall in Hu1, Hu2.
    destruct (Hu1 i1 Hi1) as (k' & Hin & [s1 H1]). destruct (Hu2 i2 Hi2) as [s2 H2].
    rewrite H1, H2, <- !app_assoc in E. apply app_inv_head in E. cbn in E.
    injection E as E _. subst k'. exact (Hk Hin).
  - intros Hnone Happ. apply app_eq_nil in Happ as [E1 E2].
    destruct (ok_of (sh p members)) eqn:O1; [|exact (Hs1 eq_refl E1)].
    destruct (ok_of (schema (p ++ [KStr k])%list (member k members))) eqn:O2;
      [discriminate Hnone | exact (Hs2 eq_refl E2)].
Qed.

Lemma located_z_object {A} keys (sh : ZodShape A) :
  shape_located keys sh -> located (z_object sh).
Proof.
  intros Hsh p data.
  destruct data; cbn; try (eapply keeps_to_single; reflexivity).
  destruct (Hsh p members) as (Hu & Hn & Hs). repeat split; [|exact Hn|exact Hs].
  eapply Forall_impl; [|exact Hu]. intros issue (k & _ & H). eapply under_app, H.
Qed.

Lemma parse_items_located {A} (element : ZodType A) :
  located element ->
  forall items p i,
    Forall (fun issue => exists j, (i <= j)%nat /\ under (p ++ [KIdx j]) issue)
      (issues_of (parse_items element p i items))
    /\ NoDup (map path (issues_of (parse_items element p i items)))
    /\ (ok_of (parse_items element p i items) = None ->
        issues_of (parse_items element p i items) <> []).
Proof.
  intros He items. induction items as [|item rest IH]; intros p i.
  - cbn. repeat split; [constructor | constructor | discriminate].
  - cbn [parse_items]. destruct (IH p (S i)) as (Hu2 & Hn2 & Hs2).
    destruct (He (p ++ [KIdx i])%list item) as (Hu1 & Hn1 & Hs1).
    rewrite issues_of_merge, ok_of_merge. repeat split.
    + apply Forall_app. split.
      * eapply Forall_impl; [|exact Hu1]. intros issue H. exists i. split; [lia | exact H].
      * eapply Forall_impl; [|exact Hu2]. intros issue (j & Hj & H).
        exists j. split; [lia | exact H].
    + rewrite map_app. apply NoDup_app; [exact Hn1 | exact Hn2 |].
      intros q Hq1 Hq2.
      apply in_map_iff in Hq1 as (i1 & <- & Hi1).
      apply in_map_iff in Hq2 as (i2 & E & Hi2).
      rewrite Forall_forall in Hu1, Hu2.
      destruct (Hu1 i1 Hi1) as [s1 H1]. destruct (Hu2 i2 Hi2) as (j & Hj & [s2 H2]).
      rewrite H1, H2, <- !app_assoc in E. apply app_inv_head in E. cbn in E.
      injection E as E _. lia.
    + intros Hnone Happ. apply app_eq_nil in Happ as [E1 E2].
      destruct (ok_of (element (p ++ [KIdx i])%list item)) eqn:O1;
        [|exact (Hs1 eq_refl E1)].
      destruct (ok_of (parse_items element p (S i) rest)) eqn:O2;
        [discriminate Hnone | exact (Hs2 eq_refl E2)].
Qed.

Lemma located_z_array {A} (element : ZodType A) :
  located element -> located (z_array element).
Proof.
  intros He p data.
  destruct data; cbn; try (eapply keeps_to_single; reflexivity).
  destruct (parse_items_located element He items p 0) as (Hu & Hn & Hs).
  repeat split; [|exact Hn|exact Hs].
  eapply Forall_impl; [|exact Hu]. intros issue (j & _ & H). eapply under_app, H.
Qed.

Ltac fresh_key := cbn; intuition discriminate.

(** The lemmas above, applied along a schema. *)
Ltac locate :=
  lazymatch goal with
  | |- located (z_object _) => eapply located_z_object; locate
  | |- shape_located _ (shape_field _ _ _) =>
      eapply shape_located_field; [locate | locate | fresh_key]
  | |- shape_located _ (shape_of _) => apply shape_located_of
  | |- located (z_string []) => apply located_z_string
  | |- located (z_number []) => apply located_z_number
  | |- located (z_union _ _) => apply located_z_union; locate
  | |- located (z_array _) => apply located_z_array; locate
  end.

Lemma located_PersonSchema : located RandomUser.PersonSchema.
Proof. unfold RandomUser.PersonSchema. locate. Qed.

Lemma located_RandomUserApiResponseSchema :
  located RandomUser.RandomUserApiResponseSchema.
Proof.
  unfold RandomUser.RandomUserApiResponseSchema, RandomUser.PersonSchema. locate.
Qed.

(** ** The upstream response *)

Lemma member_absent k members :
  has_key k (VObj members) = false -> member k members = VUndefined.
Proof.
  cbn. induction members as [|[k' v] rest IH]; [reflexivity|].
  cbn. destruct (String.eqb k k'); [discriminate | exact IH].
Qed.

(** The first validated record is the first record of the data, validated:
    the records after it have no part in it. *)
Lemma validated_first data validatedData :
  parse RandomUser.RandomUserApiResponseSchema data = Normal validatedData ->
  match first_result data with
  | Some item =>
      exists person,
        RandomUser.PersonSchema [] item = OK person
        /\ nth_error (RandomUser.results validatedData) 0 = Some person
  | None => nth_error (RandomUser.results validatedData) 0 = None
  end.
Proof.
  intros H. apply parse_Normal in H.
  destruct data; try discriminate H.
  unfold RandomUser.RandomUserApiResponseSchema, z_object, shape_field in H.
  apply merge_OK in H as (f & l & Hf & Hl & ->).
  injection Hf as <-. unfold first_result, get. cbn [app] in Hl.
  destruct (member "results" members); try discriminate Hl.
  destruct items as [|item rest]; cbn [z_array parse_items] in Hl.
  - injection Hl as <-. reflexivity.
  - apply merge_OK in Hl as (person & l' & Hperson & _ & ->).
    exists person. split; [|reflexivity].
    apply ok_of_OK.
    rewrite (path_free_PersonSchema [] ([KStr "results"] ++ [KIdx 0])%list), Hperson.
    reflexivity.
Qed.

(** A failed validation throws a [ZodError], with the issues of the parse. *)
Lemma validation_failure data e :
  parse RandomUser.RandomUserApiResponseSchema data = Throw e ->
  exists errors,
    e = ZodError errors /\ errors <> [] /\ NoDup (map path errors).
Proof.
  intros H. apply parse_Throw in H as [-> Hnone].
  destruct (located_RandomUserApiResponseSchema [] data) as (_ & Hn & Hs).
  eexists. split; [reflexivity|]. split; [exact (Hs Hnone) | exact Hn].
Qed.

Lemma parse_missing_results members :
  member "results" members = VUndefined ->
  parse RandomUser.RandomUserApiResponseSchema (VObj members)
  = Throw (ZodError [mkIssue invalid_type [KStr "results"] "Required"]).
Proof.
  intros H. unfold parse, RandomUser.RandomUserApiResponseSchema, z_object, shape_field.
  rewrite H. reflexivity.
Qed.

Lemma parse_no_results members :
  member "results" members = VArr [] ->
  parse RandomUser.RandomUserApiResponseSchema (VObj members)
  = Normal {| RandomUser.results := [] |}.
Proof.
  intros H. unfold parse, RandomUser.RandomUserApiResponseSchema, z_object, shape_field.
  rewrite H. reflexivity.
Qed.

(** What each route answers once the validation has thrown, and once it has
    passed. *)
Section Routes.

Variable float_toString : Q -> string.
Variable host_date_parse : string -> option Z.
Variable data : value.

Lemma routes_on_ZodError errors :
  parse RandomUser.RandomUserApiResponseSchema data = Throw (ZodError errors) ->
  let invalid := status_json 500
                   (InvalidResponse "Invalid response from RandomUser API" errors) in
  random_person (Json data) = invalid
  /\ random_address float_toString (Json data) = invalid
  /\ random_login host_date_parse (Json data) = invalid.
Proof.
  intros H. unfold random_person, random_address, random_login.
  cbn [await bind]. rewrite H. repeat split.
Qed.

Lemma routes_on_empty validatedData :
  parse RandomUser.RandomUserApiResponseSchema data = Normal validatedData ->
  nth_error (RandomUser.results validatedData) 0 = None ->
  random_person (Json data) = status_json 500 (Failure "Failed to fetch random person")
  /\ random_address float_toString (Json data)
     = status_json 500 (Failure "Failed to fetch random address")
  /\ random_login host_date_parse (Json data)
     = status_json 500 (Failure "Failed to fetch random login").
Proof.
  intros H H0. unfold random_person, random_address, random_login.
  cbn [await bind]. rewrite H. cbn [bind]. rewrite H0. repeat split.
Qed.

Lemma routes_on_person validatedData person :
  parse RandomUser.RandomUserApiResponseSchema data = Normal validatedData ->
  nth_error (RandomUser.results validatedData) 0 = Some person ->
  random_person (Json data)
  = json (PersonResult
            (RandomUser.first (RandomUser.name person) ++ " "
             ++ RandomUser.last (RandomUser.name person))
            (RandomUser.country (RandomUser.location person)))
  /\ random_address float_toString (Json data)
     = json (AddressResult
               (RandomUser.city (RandomUser.location person))
               (toString float_toString (RandomUser.postcode (RandomUser.location person))))
  /\ random_login host_date_parse (Json data)
     = match new_Date host_date_parse (RandomUser.date (RandomUser.registered person)) with
       | Some t =>
           json (LoginResult
                   (RandomUser.username (RandomUser.login person))
                   (split_0 "T" (iso_string t))
                   (RandomUser.username (RandomUser.login person)
                    ++ " (registered on " ++ split_0 "T" (iso_string t) ++ ")"))
       | None => status_json 500 (Failure "Failed to fetch random login")
       end.
Proof.
  intros H H0. unfold random_person, random_address, random_login.
  cbn [await bind]. rewrite H. cbn [bind]. rewrite H0. cbn [prop bind].
  repeat split.
  destruct (new_Date host_date_parse _); reflexivity.
Qed.

End Routes.

(** ** What a valid parse says about the data *)

Lemma z_object_OK {A} (sh : ZodShape A) p data a :
  z_object sh p data = OK a -> exists members, data = VObj members /\ sh p members = OK a.
Proof.
  destruct data; cbn; try discriminate. eauto.
Qed.

Lemma shape_field_OK {A B} (sh : ZodShape (A -> B)) k (schema : ZodType A) p members b :
  shape_field sh k schema p members = OK b ->
  exists f a,
    sh p members = OK f /\ schema (p ++ [KStr k])%list (member k members) = OK a /\ b = f a.
Proof.
  unfold shape_field. intros H. apply merge_OK in H as (f & a & Hf & Ha & ->). eauto.
Qed.

Lemma shape_of_OK {A} (a b : A) p members : shape_of a p members = OK b -> b = a.
Proof.
  unfold shape_of. congruence.
Qed.

Lemma z_string_OK p data s : z_string [] p data = OK s -> data = VStr s.
Proof.
  destruct data; cbn; congruence.
Qed.

Lemma z_number_OK p data x : z_number [] p data = OK x -> data = VNum x.
Proof.
  destruct data; cbn; congruence.
Qed.

Lemma z_union_OK {A B} (a : ZodType A) (b : ZodType B) p data r :
  z_union a b p data = OK r ->
  (exists x, a p data = OK x /\ r = inl x) \/ (exists y, b p data = OK y /\ r = inr y).
Proof.
  unfold z_union.
  destruct (a p data) as [x|x ia|ia]; [intros [= <-]; left; eauto | |];
    destruct (b p data) as [y|y ib|ib]; intros H; inversion H; right; eauto.
Qed.

(** Takes a valid parse of an object schema apart, member by member. *)
Ltac invert_ok :=
  repeat match goal with
    | H : z_object _ _ _ = OK _ |- _ =>
        apply z_object_OK in H as (? & ? & H); subst
    | H : shape_field _ _ _ _ _ = OK _ |- _ =>
        apply shape_field_OK in H as (? & ? & H & ? & ?); subst
    | H : shape_of _ _ _ = OK _ |- _ => apply shape_of_OK in H; subst
    | H : z_string [] _ _ = OK _ |- _ => apply z_string_OK in H
    | H : z_number [] _ _ = OK _ |- _ => apply z_number_OK in H
    end.

(** A validated record has the members of the data it was read from. *)
Lemma validated_person p item person :
  RandomUser.PersonSchema p item = OK person ->
  get "first" (get "name" item) = VStr (RandomUser.first (RandomUser.name person))
  /\ get "last" (get "name" item) = VStr (RandomUser.last (RandomUser.name person))
  /\ get "country" (get "location" item)
     = VStr (RandomUser.country (RandomUser.location person))
  /\ get "city" (get "location" item) = VStr (RandomUser.city (RandomUser.location person))
  /\ get "postcode" (get "location" item)
     = postcode_value (RandomUser.postcode (RandomUser.location person))
  /\ get "username" (get "login" item)
     = VStr (RandomUser.username (RandomUser.login person))
  /\ get "date" (get "registered" item)
     = VStr (RandomUser.date (RandomUser.registered person)).
Proof.
  unfold RandomUser.PersonSchema. intros H. invert_ok.
  match goal with
  | H : z_union _ _ _ _ = OK _ |- _ =>
      apply z_union_OK in H as [(s & H & ->) | (n & H & ->)]; invert_ok
  end;
    cbn [RandomUser.name RandomUser.location RandomUser.login RandomUser.registered
         RandomUser.first RandomUser.last RandomUser.country RandomUser.city
         RandomUser.postcode RandomUser.username RandomUser.date postcode_value];
    repeat (cbn [get];
            match goal with
            | H : member ?k ?m = _ |- context [member ?k ?m] => rewrite H
            end);
    repeat split.
Qed.

(** ** The random-person, random-address and random-login routes *)

(** The paths of the issues of a parse are the violated fields. *)
Lemma z_string_paths p v :
  map path (issues_of (z_string [] p v)) = violated is_string p v.
Proof. destruct v; reflexivity. Qed.

Lemma string_or_number_paths p v :
  map path (issues_of (z_union (z_string []) (z_number []) p v))
  = violated is_string_or_number p v.
Proof. destruct v; reflexivity. Qed.

Lemma z_object_paths {A} (sh : ZodShape A) p v :
  map path (issues_of (z_object sh p v))
  = violated_within p v (map path (issues_of (sh p (match v with
                                                    | VObj members => members
                                                    | _ => []
                                                    end)))).
Proof. destruct v; reflexivity. Qed.

Lemma shape_field_paths {A B} (sh : ZodShape (A -> B)) k (schema : ZodType A) p members :
  map path (issues_of (shape_field sh k schema p members))
  = (map path (issues_of (sh p members))
     ++ map path (issues_of (schema (p ++ [KStr k]) (member k members))))%list.
Proof. unfold shape_field. rewrite issues_of_merge, map_app. reflexivity. Qed.

Lemma shape_of_paths {A} (a : A) p members :
  map path (issues_of (shape_of a p members)) = [].
Proof. reflexivity. Qed.

Lemma get_members k v :
  member k (match v with VObj members => members | _ => [] end) = get k v.
Proof. destruct v; reflexivity. Qed.

Lemma PersonSchema_paths p item :
  map path (issues_of (RandomUser.PersonSchema p item)) = violated_person p item.
Proof.
  unfold RandomUser.PersonSchema, violated_person.
  repeat (rewrite ?z_object_paths, ?shape_field_paths, ?shape_of_paths,
            ?z_string_paths, ?string_or_number_paths, ?get_members).
  rewrite <- !app_assoc. reflexivity.
Qed.

Lemma parse_items_paths i items :
  map path (issues_of (parse_items RandomUser.PersonSchema [KStr "results"] i items))
  = violated_records i items.
Proof.
  revert i. induction items as [|item rest IH]; intros i; [reflexivity|].
  cbn [parse_items violated_records].
  rewrite issues_of_merge, map_app, PersonSchema_paths, IH. reflexivity.
Qed.

Lemma RandomUserApiResponseSchema_paths data :
  map path (issues_of (RandomUser.RandomUserApiResponseSchema [] data))
  = violated_paths data.
Proof.
  unfold RandomUser.RandomUserApiResponseSchema, violated_paths.
  rewrite z_object_paths, shape_field_paths, shape_of_paths, get_members.
  f_equal. cbn [app]. unfold z_array.
  destruct (get "results" data); try reflexivity. apply parse_items_paths.
Qed.

(** C1 (as amended). When the upstream response fails validation, each of the
    three routes answers 500 with the error "Invalid response from RandomUser
    API" and, as details, the issues of the parse as zod made them: each
    carries the path of the violated field as its sequence of keys (not
    joined), and there is one issue per violated field: the paths of the
    issues are the violated fields of the response, each once, in the order
    of the schema. So there is one issue at least, and no two issues are at
    the same path. *)
Theorem invalid_upstream_details
  (float_toString : Q -> string) (host_date_parse : string -> option Z)
  (data : value) (e : exn) :
  parse RandomUser.RandomUserApiResponseSchema data = Throw e ->
  exists errors,
    e = ZodError errors
    /\ map path errors = violated_paths data
    /\ errors <> []
    /\ NoDup (map path errors)
    /\ random_person (Json data)
       = status_json 500 (InvalidResponse "Invalid response from RandomUser API" errors)
    /\ random_address float_toString (Json data)
       = status_json 500 (InvalidResponse "Invalid response from RandomUser API" errors)
    /\ random_login host_date_parse (Json data)
       = status_json 500 (InvalidResponse "Invalid response from RandomUser API" errors).
Proof.
  intros H. pose proof (parse_Throw _ _ _ H) as [-> Hnone].
  destruct (located_RandomUserApiResponseSchema [] data) as (_ & Hn & Hs).
  eexists. split; [reflexivity|].
  split; [apply RandomUserApiResponseSchema_paths|].
  split; [exact (Hs Hnone)|]. split; [exact Hn|].
  apply (routes_on_ZodError float_toString host_date_parse data _ H).
Qed.

Lemma invalid_upstream_details_example :
  violated_paths three_deviations
  = [ [KStr "results"; KIdx 0; KStr "name"; KStr "first"];
      [KStr "results"; KIdx 0; KStr "location"; KStr "postcode"];
      [KStr "results"; KIdx 1] ]
  /\ exists errors,
      parse RandomUser.RandomUserApiResponseSchema three_deviations
      = Throw (ZodError errors)
      /\ map path errors
         = [ [KStr "results"; KIdx 0; KStr "name"; KStr "first"];
             [KStr "results"; KIdx 0; KStr "location"; KStr "postcode"];
             [KStr "results"; KIdx 1] ]
      /\ random_person (Json three_deviations)
         = status_json 500 (InvalidResponse "Invalid response from RandomUser API" errors)
      /\ random_address integers_only (Json three_deviations)
         = status_json 500 (InvalidResponse "Invalid response from RandomUser API" errors)
      /\ random_login standard_dates_only (Json three_deviations)
         = status_json 500 (InvalidResponse "Invalid response from RandomUser API" errors).
Proof.
  split; [reflexivity|].
  destruct (invalid_upstream_details integers_only standard_dates_only
              three_deviations _ eq_refl)
    as (errors & Herrors & Hpaths & _ & _ & Hperson & Haddress & Hlogin).
  exists errors. injection Herrors as <-.
  repeat split; reflexivity.
Defined.

(** C1, as stated, fails: for a postcode that is a boolean the details of the
    three routes hold the issue with its path as the four keys [results], [0],
    [location], [postcode]; the joined path "results.0.location.postcode" is
    in no entry, as it would be in the entries of [POST /users]. *)
Lemma details_are_raw_issues :
  body_of (random_person (Json (api_response [ada (VBool true) "2020-05-01T00:00:00Z"])))
  = InvalidResponse "Invalid response from RandomUser API" [postcode_issue]
  /\ body_of (random_address integers_only
                (Json (api_response [ada (VBool true) "2020-05-01T00:00:00Z"])))
     = InvalidResponse "Invalid response from RandomUser API" [postcode_issue]
  /\ body_of (random_login standard_dates_only
                (Json (api_response [ada (VBool true) "2020-05-01T00:00:00Z"])))
     = InvalidResponse "Invalid response from RandomUser API" [postcode_issue]
  /\ join "." (map key_toString (path postcode_issue)) = "results.0.location.postcode"
  /\ ~ (exists error details,
          body_of (random_person
                     (Json (api_response [ada (VBool true) "2020-05-01T00:00:00Z"])))
          = ValidationFailed error details).
Proof.
  repeat split; try reflexivity.
  intros (error & details & H). discriminate H.
Qed.

(** C2. When the upstream response is an object whose [results] is the empty
    array (so for exactly [{results: []}]), validation succeeds and each of
    the three routes answers 500 with the generic body, without details. *)
Theorem empty_results_generic_failure
  (float_toString : Q -> string) (host_date_parse : string -> option Z)
  (members : list (string * value)) :
  member "results" members = VArr [] ->
  parse RandomUser.RandomUserApiResponseSchema (VObj members)
  = Normal {| RandomUser.results := [] |}
  /\ random_person (Json (VObj members))
     = status_json 500 (Failure "Failed to fetch random person")
  /\ random_address float_toString (Json (VObj members))
     = status_json 500 (Failure "Failed to fetch random address")
  /\ random_login host_date_parse (Json (VObj members))
     = status_json 500 (Failure "Failed to fetch random login").
Proof.
  intros H. pose proof (parse_no_results members H) as Hp.
  split; [exact Hp|].
  exact (routes_on_empty float_toString host_date_parse _ _ Hp eq_refl).
Qed.

Lemma empty_results_generic_failure_example :
  member "results" [("results", VArr [])] = VArr []
  /\ parse RandomUser.RandomUserApiResponseSchema (api_response [])
     = Normal {| RandomUser.results := [] |}
  /\ random_person (Json (api_response []))
     = status_json 500 (Failure "Failed to fetch random person")
  /\ random_address integers_only (Json (api_response []))
     = status_json 500 (Failure "Failed to fetch random address")
  /\ random_login standard_dates_only (Json (api_response []))
     = status_json 500 (Failure "Failed to fetch random login").
Proof.
  split; [reflexivity|].
  apply (empty_results_generic_failure integers_only standard_dates_only
           [("results", VArr [])]).
  reflexivity.
Defined.

(** C9. When the upstream response has no [results] key, each of the three
    routes answers 500 with the error "Invalid response from RandomUser API"
    and one [invalid_type] issue as details, not the generic body. *)
Theorem missing_results_is_invalid
  (float_toString : Q -> string) (host_date_parse : string -> option Z) (data : value) :
  has_key "results" data = false ->
  exists issue,
    code issue = invalid_type
    /\ random_person (Json data)
       = status_json 500 (InvalidResponse "Invalid response from RandomUser API" [issue])
    /\ random_address float_toString (Json data)
       = status_json 500 (InvalidResponse "Invalid response from RandomUser API" [issue])
    /\ random_login host_date_parse (Json data)
       = status_json 500 (InvalidResponse "Invalid response from RandomUser API" [issue]).
Proof.
  intros H.
  assert (Hp : exists issue,
             code issue = invalid_type
             /\ parse RandomUser.RandomUserApiResponseSchema data = Throw (ZodError [issue])).
  { destruct data; try (eexists; split; [|reflexivity]; reflexivity).
    eexists. split; [|apply parse_missing_results, member_absent, H]. reflexivity. }
  destruct Hp as (issue & Hc & Hp). exists issue. split; [exact Hc|].
  exact (routes_on_ZodError float_toString host_date_parse data [issue] Hp).
Qed.

Lemma missing_results_is_invalid_example :
  has_key "results" (VObj [("info", VObj [])]) = false
  /\ exists issue,
      code issue = invalid_type
      /\ random_person (Json (VObj [("info", VObj [])]))
         = status_json 500 (InvalidResponse "Invalid response from RandomUser API" [issue])
      /\ random_address integers_only (Json (VObj [("info", VObj [])]))
         = status_json 500 (InvalidResponse "Invalid response from RandomUser API" [issue])
      /\ random_login standard_dates_only (Json (VObj [("info", VObj [])]))
         = status_json 500 (InvalidResponse "Invalid response from RandomUser API" [issue]).
Proof.
  split; [reflexivity|].
  apply (missing_results_is_invalid integers_only standard_dates_only
           (VObj [("info", VObj [])])).
  reflexivity.
Defined.

(** C10. Two upstream responses that both validate and have the same first
    record get the same answer from each of the three routes: only
    [results[0]] is used. *)
Theorem only_first_result_is_used
  (float_toString : Q -> string) (host_date_parse : string -> option Z)
  (data1 data2 : value) (validated1 validated2 : RandomUser.ApiResponse) :
  parse RandomUser.RandomUserApiResponseSchema data1 = Normal validated1 ->
  parse RandomUser.RandomUserApiResponseSchema data2 = Normal validated2 ->
  first_result data1 = first_result data2 ->
  random_person (Json data1) = random_person (Json data2)
  /\ random_address float_toString (Json data1) = random_address float_toString (Json data2)
  /\ random_login host_date_parse (Json data1) = random_login host_date_parse (Json data2).
Proof.
  intros H1 H2 Hfirst.
  pose proof (validated_first data1 validated1 H1) as F1.
  pose proof (validated_first data2 validated2 H2) as F2.
  rewrite Hfirst in F1.
  destruct (first_result data2) as [item|].
  - destruct F1 as (person1 & E1 & F1), F2 as (person2 & E2 & F2).
    assert (person1 = person2) as -> by congruence.
    destruct (routes_on_person float_toString host_date_parse data1 _ _ H1 F1)
      as (-> & -> & ->).
    destruct (routes_on_person float_toString host_date_parse data2 _ _ H2 F2)
      as (-> & -> & ->).
    repeat split.
  - destruct (routes_on_empty float_toString host_date_parse data1 _ H1 F1)
      as (-> & -> & ->).
    destruct (routes_on_empty float_toString host_date_parse data2 _ H2 F2)
      as (-> & -> & ->).
    repeat split.
Qed.

Lemma only_first_result_is_used_example :
  parse RandomUser.RandomUserApiResponseSchema
    (api_response [ada (VNum 12345) "2020-05-01T00:00:00Z"])
  = Normal {| RandomUser.results :=
                [ {| RandomUser.name := {| RandomUser.first := "Ada";
                                           RandomUser.last := "Lovelace" |};
                     RandomUser.location := {| RandomUser.country := "UK";
                                               RandomUser.city := "London";
                                               RandomUser.postcode := inr 12345%Q |};
                     RandomUser.login := {| RandomUser.username := "ada" |};
                     RandomUser.registered :=
                       {| RandomUser.date := "2020-05-01T00:00:00Z" |} |} ] |}
  /\ first_result (api_response [ada (VNum 12345) "2020-05-01T00:00:00Z"])
     = first_result (api_response [ada (VNum 12345) "2020-05-01T00:00:00Z";
                                   ada (VStr "SW1A") "1999-12-31"])
  /\ random_person (Json (api_response [ada (VNum 12345) "2020-05-01T00:00:00Z"]))
     = random_person (Json (api_response [ada (VNum 12345) "2020-05-01T00:00:00Z";
                                          ada (VStr "SW1A") "1999-12-31"]))
  /\ random_address integers_only
       (Json (api_response [ada (VNum 12345) "2020-05-01T00:00:00Z"]))
     = random_address integers_only
         (Json (api_response [ada (VNum 12345) "2020-05-01T00:00:00Z";
                              ada (VStr "SW1A") "1999-12-31"]))
  /\ random_login standard_dates_only
       (Json (api_response [ada (VNum 12345) "2020-05-01T00:00:00Z"]))
     = random_login standard_dates_only
         (Json (api_response [ada (VNum 12345) "2020-05-01T00:00:00Z";
                              ada (VStr "SW1A") "1999-12-31"])).
Proof.
  split; [reflexivity|]. split; [reflexivity|].
  eapply (only_first_result_is_used integers_only standard_dates_only
            (api_response [ada (VNum 12345) "2020-05-01T00:00:00Z"])
            (api_response [ada (VNum 12345) "2020-05-01T00:00:00Z";
                           ada (VStr "SW1A") "1999-12-31"])).
  - reflexivity.
  - reflexivity.
  - reflexivity.
Defined.

Lemma Number_toString_safe_integer (float_toString : Q -> string) (z : Z) :
  (Z.abs z < 2 ^ 53)%Z -> Number_toString float_toString (inject_Z z) = decimal z.
Proof.
  intros H. unfold Number_toString, isInteger, integral_part. cbn [Qnum Qden inject_Z].
  rewrite Z.mod_1_r, Z.div_1_r. apply Z.ltb_lt in H. rewrite H. reflexivity.
Qed.

(** C8. For a validated response with a first record, random-address answers
    200 with the city of that record and its postcode as a string: the
    postcode of the data is a string, answered as it is, or a number,
    answered as [Number] writes it, a safe integer with its decimal digits. *)
Theorem random_address_shape
  (float_toString : Q -> string) (data item : value)
  (validatedData : RandomUser.ApiResponse) :
  parse RandomUser.RandomUserApiResponseSchema data = Normal validatedData ->
  first_result data = Some item ->
  exists (city : string) (postcode : string + Q),
    get "city" (get "location" item) = VStr city
    /\ get "postcode" (get "location" item) = postcode_value postcode
    /\ random_address float_toString (Json data)
       = json (AddressResult city (toString float_toString postcode))
    /\ (forall s, postcode = inl s -> toString float_toString postcode = s)
    /\ (forall z,
           postcode = inr (inject_Z z) -> (Z.abs z < 2 ^ 53)%Z ->
           toString float_toString postcode = decimal z).
Proof.
  intros H Hitem.
  pose proof (validated_first data validatedData H) as F.
  rewrite Hitem in F. destruct F as (person & E & F).
  destruct (validated_person [] item person E) as (_ & _ & _ & Hcity & Hpc & _).
  exists (RandomUser.city (RandomUser.location person)),
    (RandomUser.postcode (RandomUser.location person)).
  split; [exact Hcity|]. split; [exact Hpc|]. split; [|split].
  - apply (routes_on_person float_toString standard_dates_only data _ _ H F).
  - intros s ->. reflexivity.
  - intros z -> Hz. apply Number_toString_safe_integer, Hz.
Qed.

Lemma random_address_shape_example :
  parse RandomUser.RandomUserApiResponseSchema
    (api_response [ada (VNum 12345) "2020-05-01T00:00:00Z"])
  = Normal {| RandomUser.results :=
                [ {| RandomUser.name := {| RandomUser.first := "Ada";
                                           RandomUser.last := "Lovelace" |};
                     RandomUser.location := {| RandomUser.country := "UK";
                                               RandomUser.city := "London";
                                               RandomUser.postcode := inr 12345%Q |};
                     RandomUser.login := {| RandomUser.username := "ada" |};
                     RandomUser.registered :=
                       {| RandomUser.date := "2020-05-01T00:00:00Z" |} |} ] |}
  /\ first_result (api_response [ada (VNum 12345) "2020-05-01T00:00:00Z"])
     = Some (ada (VNum 12345) "2020-05-01T00:00:00Z")
  /\ random_address integers_only
       (Json (api_response [ada (VNum 12345) "2020-05-01T00:00:00Z"]))
     = json (AddressResult "London" "12345").
Proof.
  split; [reflexivity|]. split; [reflexivity|].
  destruct (random_address_shape integers_only
              (api_response [ada (VNum 12345) "2020-05-01T00:00:00Z"])
              (ada (VNum 12345) "2020-05-01T00:00:00Z") _ eq_refl eq_refl)
    as (city & postcode & Hcity & Hpostcode & -> & _ & Hdigits).
  injection Hcity as <-.
  destruct postcode as [s|x]; [discriminate Hpostcode | injection Hpostcode as <-].
  rewrite (Hdigits 12345%Z eq_refl); [reflexivity | cbn; lia].
Defined.

(** ** Time values and calendar dates *)

Local Open Scope Z_scope.

Lemma DayFromYear_succ y : DayFromYear (y + 1) = DayFromYear y + DaysInYear y.
Proof.
  unfold DayFromYear, DaysInYear, leap_year.
  destruct (y mod 4 =? 0) eqn:E4; destruct (y mod 100 =? 0) eqn:E100;
    destruct (y mod 400 =? 0) eqn:E400; cbn [andb orb negb];
    rewrite ?Z.eqb_eq, ?Z.eqb_neq in *; Z.div_mod_to_equations; lia.
Qed.

Lemma DayFromYear_lt y y' : y < y' -> DayFromYear y < DayFromYear y'.
Proof.
  unfold DayFromYear. intros H. Z.div_mod_to_equations. lia.
Qed.

(** [YearFromDay] is the year of ECMA-262: the one whose days hold [d]. *)
Lemma YearFromDay_spec d :
  DayFromYear (YearFromDay d) <= d < DayFromYear (YearFromDay d + 1).
Proof.
  unfold YearFromDay.
  set (y := 1970 + d * 400 / 146097).
  assert (Hlo : DayFromYear (y - 1) <= d).
  { unfold DayFromYear, y. Z.div_mod_to_equations. lia. }
  assert (Hhi : d < DayFromYear (y + 2)).
  { unfold DayFromYear, y. Z.div_mod_to_equations. lia. }
  destruct (d <? DayFromYear y) eqn:E1.
  - apply Z.ltb_lt in E1. replace (y - 1 + 1) with y by lia. lia.
  - apply Z.ltb_ge in E1. destruct (DayFromYear (y + 1) <=? d) eqn:E2.
    + apply Z.leb_le in E2. replace (y + 1 + 1) with (y + 2) by lia. lia.
    + apply Z.leb_gt in E2. lia.
Qed.

Lemma YearFromDay_unique d y :
  DayFromYear y <= d < DayFromYear (y + 1) -> YearFromDay d = y.
Proof.
  intros H. pose proof (YearFromDay_spec d) as S.
  destruct (Z.lt_trichotomy (YearFromDay d) y) as [L | [E | G]]; [|exact E|].
  - assert (DayFromYear (YearFromDay d + 1) <= DayFromYear y).
    { destruct (Z.eq_dec (YearFromDay d + 1) y) as [->|]; [lia|].
      apply Z.lt_le_incl, DayFromYear_lt. lia. }
    lia.
  - assert (DayFromYear (y + 1) <= DayFromYear (YearFromDay d)).
    { destruct (Z.eq_dec (y + 1) (YearFromDay d)) as [->|]; [lia|].
      apply Z.lt_le_incl, DayFromYear_lt. lia. }
    lia.
Qed.

(** A property of the integers from 0 below a bound, from its instances. *)
Lemma below_cases (P : Z -> Prop) (bound : nat) :
  (forall k, (k < bound)%nat -> P (Z.of_nat k)) ->
  forall n, 0 <= n < Z.of_nat bound -> P n.
Proof.
  intros H n Hn. rewrite <- (Z2Nat.id n) by lia. apply H. lia.
Qed.

(** Splits the goal on the twelve months. *)
Ltac each_month month tac :=
  pattern month; apply (below_cases _ 12); [|assumption];
  let k := fresh "k" in
  let Hk := fresh "Hk" in
  intros k Hk;
  do 12 (destruct k as [|k]; [simpl (Z.of_nat _); tac|]);
  exfalso; clear - Hk; lia.

Ltac decide_comparisons :=
  repeat match goal with
    | |- context [?a <? ?b] =>
        let E := fresh "E" in
        destruct (a <? b) eqn:E;
        [apply Z.ltb_lt in E | apply Z.ltb_ge in E]; try lia
    end.

Lemma month_of_day_start leap month date :
  0 <= leap <= 1 ->
  0 <= month <= 11 ->
  1 <= date <= month_start leap (month + 1) - month_start leap month ->
  month_of_day leap (month_start leap month + date - 1) = month.
Proof.
  intros Hl Hm. revert date.
  assert (Hm' : 0 <= month < Z.of_nat 12) by lia. clear Hm.
  assert (leap = 0 \/ leap = 1) as [-> | ->] by lia;
    each_month month
      ltac:(intros date; simpl (month_start _ _); intros Hd; unfold month_of_day;
            decide_comparisons; reflexivity).
Qed.

Lemma month_start_bounds leap month :
  0 <= leap <= 1 -> 0 <= month <= 11 ->
  0 <= month_start leap month /\ month_start leap (month + 1) <= 365 + leap.
Proof.
  intros Hl Hm.
  assert (Hm' : 0 <= month < Z.of_nat 12) by lia. clear Hm.
  assert (leap = 0 \/ leap = 1) as [-> | ->] by lia;
    each_month month ltac:(simpl (month_start _ _); lia).
Qed.

(** The year, the month and the day of the month of a time value are those
    its day number was made from. *)
Lemma MakeDay_inverse t year month date :
  0 <= month <= 11 ->
  1 <= date <= DaysInMonth year month ->
  Day t = MakeDay year month date ->
  YearFromTime t = year /\ MonthFromTime t = month /\ DateFromTime t = date.
Proof.
  intros Hm Hd HD. unfold DaysInMonth in Hd. cbv zeta in Hd.
  set (leap := if leap_year year then 1 else 0) in *.
  assert (Hl : 0 <= leap <= 1) by (unfold leap; destruct (leap_year year); lia).
  pose proof (month_start_bounds leap month Hl Hm) as Hb.
  assert (Hy : YearFromTime t = year).
  { unfold YearFromTime. apply YearFromDay_unique. rewrite HD, DayFromYear_succ.
    unfold MakeDay, DaysInYear. fold leap.
    replace (if leap_year year then 366 else 365) with (365 + leap)
      by (unfold leap; destruct (leap_year year); reflexivity).
    lia. }
  assert (Hi : InLeapYear t = leap) by (unfold InLeapYear; rewrite Hy; reflexivity).
  assert (Hw : DayWithinYear t = month_start leap month + date - 1).
  { unfold DayWithinYear. rewrite Hy, HD. unfold MakeDay. fold leap. lia. }
  assert (Hmo : MonthFromTime t = month).
  { unfold MonthFromTime. rewrite Hi, Hw. apply month_of_day_start; assumption. }
  split; [exact Hy|]. split; [exact Hmo|].
  unfold DateFromTime. rewrite Hmo, Hi, Hw. lia.
Qed.

Local Close Scope Z_scope.

(** ** The date part of an ISO string *)

Lemma forall_units_app p a b :
  forall_units p (a ++ b) = forall_units p a && forall_units p b.
Proof.
  induction a as [|c a IH]; cbn; [reflexivity|].
  rewrite IH, andb_assoc. reflexivity.
Qed.

Lemma forall_units_impl (p q : ascii -> bool) s :
  (forall c, p c = true -> q c = true) ->
  forall_units p s = true -> forall_units q s = true.
Proof.
  intros Hpq. induction s as [|c s IH]; cbn; [reflexivity|].
  intros H. apply andb_true_iff in H as [Hc Hs].
  rewrite (Hpq c Hc), (IH Hs). reflexivity.
Qed.

Lemma digit_unit_is_digit n : (0 <= n < 10)%Z -> is_digit (digit_unit n) = true.
Proof.
  intros H. pattern n. apply (below_cases _ 10); [|exact H].
  intros k Hk. do 10 (destruct k as [|k]; [reflexivity|]). exfalso. lia.
Qed.

Lemma pad_digits width n : forall_units is_digit (pad width n) = true.
Proof.
  revert n. induction width as [|w IH]; intros n; cbn [pad]; [reflexivity|].
  rewrite forall_units_app, IH. cbn.
  rewrite digit_unit_is_digit; [reflexivity|].
  apply Z.mod_pos_bound. lia.
Qed.

Lemma digits_no_T s : forall_units is_digit s = true -> no_T s = true.
Proof.
  apply forall_units_impl. intros c Hc.
  destruct (Ascii.eqb "T" c) eqn:E; [|reflexivity].
  apply Ascii.eqb_eq in E. subst c. discriminate Hc.
Qed.

Lemma no_T_app a b : no_T (a ++ b) = no_T a && no_T b.
Proof. apply forall_units_app. Qed.

Lemma split_first_app c a b :
  forall_units (fun u => negb (Ascii.eqb c u)) a = true ->
  split_first c (a ++ String c b) = Some (a, b).
Proof.
  induction a as [|u a IH]; cbn.
  - intros _. rewrite Ascii.eqb_refl. reflexivity.
  - intros H. apply andb_true_iff in H as [Hu Ha].
    apply negb_true_iff in Hu. rewrite Hu, (IH Ha). reflexivity.
Qed.

Lemma iso_date_no_T t : no_T (iso_date t) = true.
Proof.
  unfold iso_date, iso_year.
  set (y := YearFromTime t).
  assert (Hy : no_T (if ((0 <=? y) && (y <=? 9999))%Z then pad 4 y
                     else ((if (y <? 0)%Z then "-" else "+") ++ pad 6 (Z.abs y))) = true).
  { destruct ((0 <=? y) && (y <=? 9999))%Z.
    - apply digits_no_T, pad_digits.
    - rewrite no_T_app, (digits_no_T _ (pad_digits 6 _)).
      destruct (y <? 0)%Z; reflexivity. }
  cbv zeta. rewrite !no_T_app, Hy, !(digits_no_T _ (pad_digits 2 _)). reflexivity.
Qed.

Lemma split_0_iso_string t : split_0 "T" (iso_string t) = iso_date t.
Proof.
  unfold split_0, iso_string.
  change (iso_date t ++ "T" ++ iso_time t ++ "Z")
    with (iso_date t ++ String "T" (iso_time t ++ "Z")).
  rewrite split_first_app; [reflexivity | apply iso_date_no_T].
Qed.

(** The date part of the years 0 to 9999 is [YYYY-MM-DD], for the calendar
    date the day number of the time value was made from. *)
Lemma iso_date_calendar t year month day :
  (0 <= year <= 9999)%Z ->
  (1 <= month <= 12)%Z ->
  (1 <= day <= DaysInMonth year (month - 1))%Z ->
  Day t = MakeDay year (month - 1) day ->
  iso_date t = pad 4 year ++ "-" ++ pad 2 month ++ "-" ++ pad 2 day.
Proof.
  intros Hy Hm Hd HD.
  destruct (MakeDay_inverse t year (month - 1)%Z day) as (Ey & Em & Ed);
    [lia | exact Hd | exact HD |].
  unfold iso_date, iso_year. rewrite Ey, Em, Ed.
  replace (month - 1 + 1)%Z with month by lia.
  destruct (0 <=? year)%Z eqn:E0; [|apply Z.leb_gt in E0; lia].
  destruct (year <=? 9999)%Z eqn:E9; [|apply Z.leb_gt in E9; lia].
  reflexivity.
Qed.

Lemma iso_date_four_digits t :
  (0 <= YearFromTime t <= 9999)%Z -> iso_date t = YYYY_MM_DD t.
Proof.
  intros [H0 H9]. unfold iso_date, iso_year, YYYY_MM_DD.
  apply Z.leb_le in H0. apply Z.leb_le in H9. rewrite H0, H9. reflexivity.
Qed.

(** C4 (as amended). For a validated response with a first record,
    random-login reads the registration date of that record with [new Date].
    When that gives a time value in the years 0 to 9999 of UTC, the route
    answers 200 with the username, with [registeredDate] the date-only form
    YYYY-MM-DD of the UTC calendar date (time of day dropped) and with
    [summary] the username, " (registered on ", that date and ")"; the
    calendar date is the one the day number of the time value is made from.
    When [new Date] gives an invalid date, the route answers the generic
    500. *)
Theorem random_login_date
  (host_date_parse : string -> option Z) (data item : value)
  (validatedData : RandomUser.ApiResponse) (username date : string) :
  parse RandomUser.RandomUserApiResponseSchema data = Normal validatedData ->
  first_result data = Some item ->
  get "username" (get "login" item) = VStr username ->
  get "date" (get "registered" item) = VStr date ->
  match new_Date host_date_parse date with
  | Some t =>
      (0 <= YearFromTime t <= 9999)%Z ->
      random_login host_date_parse (Json data)
      = json (LoginResult username (YYYY_MM_DD t)
                (username ++ " (registered on " ++ YYYY_MM_DD t ++ ")"))
      /\ forall year month day,
          (1 <= month <= 12)%Z ->
          (1 <= day <= DaysInMonth year (month - 1))%Z ->
          Day t = MakeDay year (month - 1) day ->
          YYYY_MM_DD t = pad 4 year ++ "-" ++ pad 2 month ++ "-" ++ pad 2 day
  | None =>
      random_login host_date_parse (Json data)
      = status_json 500 (Failure "Failed to fetch random login")
  end.
Proof.
  intros H Hitem Hname Hdate.
  pose proof (validated_first data validatedData H) as F.
  rewrite Hitem in F. destruct F as (person & E & F).
  destruct (validated_person [] item person E) as (_ & _ & _ & _ & _ & Hu & Hd).
  destruct (routes_on_person integers_only host_date_parse data _ _ H F) as (_ & _ & ->).
  rewrite Hname in Hu. injection Hu as <-.
  rewrite Hdate in Hd. injection Hd as <-.
  destruct (new_Date host_date_parse date) as [t|]; [|reflexivity].
  intros Hyear. rewrite split_0_iso_string, (iso_date_four_digits t Hyear).
  split; [reflexivity|].
  intros year month day Hm Hday HD.
  destruct (MakeDay_inverse t year (month - 1)%Z day) as (Ey & Em & Ed);
    [lia | exact Hday | exact HD |].
  unfold YYYY_MM_DD. rewrite Ey, Em, Ed.
  replace (month - 1 + 1)%Z with month by lia. reflexivity.
Qed.

Lemma random_login_date_example :
  parse RandomUser.RandomUserApiResponseSchema
    (api_response [ada (VNum 12345) "2020-05-01T00:00:00Z"])
  = Normal {| RandomUser.results :=
                [ {| RandomUser.name := {| RandomUser.first := "Ada";
                                           RandomUser.last := "Lovelace" |};
                     RandomUser.location := {| RandomUser.country := "UK";
                                               RandomUser.city := "London";
                                               RandomUser.postcode := inr 12345%Q |};
                     RandomUser.login := {| RandomUser.username := "ada" |};
                     RandomUser.registered :=
                       {| RandomUser.date := "2020-05-01T00:00:00Z" |} |} ] |}
  /\ first_result (api_response [ada (VNum 12345) "2020-05-01T00:00:00Z"])
     = Some (ada (VNum 12345) "2020-05-01T00:00:00Z")
  /\ new_Date standard_dates_only "2020-05-01T00:00:00Z" = Some 1588291200000%Z
  /\ YearFromTime 1588291200000 = 2020%Z
  /\ Day 1588291200000 = MakeDay 2020 (5 - 1) 1
  /\ random_login standard_dates_only
       (Json (api_response [ada (VNum 12345) "2020-05-01T00:00:00Z"]))
     = json (LoginResult "ada" "2020-05-01" "ada (registered on 2020-05-01)").
Proof.
  split; [reflexivity|]. split; [reflexivity|]. split; [reflexivity|].
  split; [reflexivity|]. split; [reflexivity|].
  pose proof (random_login_date standard_dates_only
                (api_response [ada (VNum 12345) "2020-05-01T00:00:00Z"])
                (ada (VNum 12345) "2020-05-01T00:00:00Z") _ "ada" "2020-05-01T00:00:00Z"
                eq_refl eq_refl eq_refl eq_refl) as H.
  change (new_Date standard_dates_only "2020-05-01T00:00:00Z")
    with (Some 1588291200000%Z) in H.
  assert (Hyear : (0 <= YearFromTime 1588291200000 <= 9999)%Z).
  { change (YearFromTime 1588291200000) with 2020%Z. lia. }
  destruct (H Hyear) as [-> Hdate].
  rewrite (Hdate 2020%Z 5%Z 1%Z); [reflexivity | lia | | reflexivity].
  change (DaysInMonth 2020 (5 - 1)) with 31%Z. lia.
Defined.

(** C4, as stated, fails. A record whose registration date is the string
    "not a date" validates, and on a runtime that reads the standard format
    only random-login answers it with the generic 500, with no
    [registeredDate] and no [summary]. *)
Lemma random_login_date_not_total :
  (exists validatedData,
      parse RandomUser.RandomUserApiResponseSchema
        (api_response [ada (VNum 12345) "not a date"]) = Normal validatedData
      /\ exists person,
           nth_error (RandomUser.results validatedData) 0 = Some person
           /\ RandomUser.date (RandomUser.registered person) = "not a date")
  /\ new_Date standard_dates_only "not a date" = None
  /\ random_login standard_dates_only (Json (api_response [ada (VNum 12345) "not a date"]))
     = status_json 500 (Failure "Failed to fetch random login").
Proof.
  split; [|split; reflexivity].
  eexists. split; [reflexivity|]. eexists. split; reflexivity.
Qed.

(** ** POST /users *)

(** The parse of an object body, from the parses of its three members. *)
Lemma UserSchema_object members :
  Users.UserSchema [] (VObj members)
  = merge (fun f a => f a)
      (merge (fun f a => f a)
         (merge (fun f a => f a) (OK Users.Build_User)
            (Users.name_schema [KStr "name"] (member "name" members)))
         (Users.age_schema [KStr "age"] (member "age" members)))
      (Users.email_schema [KStr "email"] (member "email" members)).
Proof. reflexivity. Qed.

Lemma UserSchema_issues members :
  issues_of (Users.UserSchema [] (VObj members)) = user_issues members.
Proof.
  rewrite UserSchema_object, !issues_of_merge. unfold user_issues.
  cbn [issues_of app]. rewrite <- app_assoc. reflexivity.
Qed.

Lemma post_users_valid members n a e :
  Users.name_schema [KStr "name"] (member "name" members) = OK n ->
  Users.age_schema [KStr "age"] (member "age" members) = OK a ->
  Users.email_schema [KStr "email"] (member "email" members) = OK e ->
  post_users (VObj members)
  = status_json 201
      (ValidatedUser {| Users.name := n; Users.age := a; Users.email := e |}).
Proof.
  intros Hn Ha He. unfold post_users, parse.
  rewrite UserSchema_object, Hn, Ha, He. reflexivity.
Qed.

Lemma post_users_invalid members :
  user_issues members <> [] ->
  post_users (VObj members)
  = status_json 400
      (ValidationFailed "Validation failed" (map detail_of (user_issues members))).
Proof.
  intros H. rewrite <- UserSchema_issues in *. unfold post_users, parse.
  destruct (Users.UserSchema [] (VObj members)); cbn in *; [congruence | |]; reflexivity.
Qed.

Lemma post_users_created members u :
  post_users (VObj members) = status_json 201 (ValidatedUser u) ->
  exists n a e,
    Users.name_schema [KStr "name"] (member "name" members) = OK n
    /\ Users.age_schema [KStr "age"] (member "age" members) = OK a
    /\ Users.email_schema [KStr "email"] (member "email" members) = OK e
    /\ u = {| Users.name := n; Users.age := a; Users.email := e |}.
Proof.
  unfold post_users, parse. rewrite UserSchema_object.
  destruct (merge _ _ _) as [u'| |] eqn:E; intros H; try discriminate H.
  injection H as <-.
  apply merge_OK in E as (f2 & e & E & He & ->).
  apply merge_OK in E as (f1 & a & E & Ha & ->).
  apply merge_OK in E as (f0 & n & E & Hn & ->).
  injection E as <-. exists n, a, e. repeat split; assumption.
Qed.

(** The issues of each member: which they are, and when there are none. *)
Lemma name_issues p s :
  issues_of (Users.name_schema p (VStr s))
  = ((if (String.length s <? 3)%nat
      then [mkIssue too_small p "Name must be at least 3 characters"] else [])
     ++ (if (12 <? String.length s)%nat
         then [mkIssue too_big p "Name must be at most 12 characters"] else []))%list.
Proof.
  unfold Users.name_schema, z_string. cbn [string_checks string_check].
  rewrite issues_of_with_issues, app_nil_r. reflexivity.
Qed.

Lemma name_OK p v :
  name_valid v = true -> exists s, v = VStr s /\ Users.name_schema p v = OK s.
Proof.
  destruct v; try discriminate. cbn [name_valid]. intros H.
  apply andb_true_iff in H as [H3 H12].
  apply Nat.leb_le in H3. apply Nat.leb_le in H12.
  exists s. split; [reflexivity|].
  unfold Users.name_schema, z_string. cbn [string_checks string_check].
  destruct (String.length s <? 3)%nat eqn:E3; [apply Nat.ltb_lt in E3; lia|].
  destruct (12 <? String.length s)%nat eqn:E12; [apply Nat.ltb_lt in E12; lia|].
  reflexivity.
Qed.

Lemma name_invalid p v :
  name_valid v = false ->
  issues_of (Users.name_schema p v) <> []
  /\ Forall (fun issue => path issue = p) (issues_of (Users.name_schema p v)).
Proof.
  destruct v; try (intros _; split; [discriminate | repeat constructor]).
  cbn [name_valid]. intros H. rewrite name_issues.
  apply andb_false_iff in H as [H | H]; apply Nat.leb_gt in H.
  - destruct (String.length s <? 3)%nat eqn:E3; [|apply Nat.ltb_ge in E3; lia].
    destruct (12 <? String.length s)%nat; split;
      solve [discriminate | repeat constructor].
  - destruct (12 <? String.length s)%nat eqn:E12; [|apply Nat.ltb_ge in E12; lia].
    destruct (String.length s <? 3)%nat; split;
      solve [discriminate | repeat constructor].
Qed.

Lemma email_issues p s :
  issues_of (Users.email_schema p (VStr s))
  = if emailRegex_test s then [] else [mkIssue invalid_string p "Must be a valid email"].
Proof.
  unfold Users.email_schema, z_string. cbn [string_checks string_check].
  rewrite issues_of_with_issues, !app_nil_r. reflexivity.
Qed.

Lemma email_OK p v :
  email_valid v = true ->
  exists s, v = VStr s /\ Users.email_schema p v = OK (toLowerCase s).
Proof.
  destruct v; try discriminate. cbn [email_valid]. intros H.
  exists s. split; [reflexivity|].
  unfold Users.email_schema, z_string. cbn [string_checks string_check].
  rewrite H. reflexivity.
Qed.

Lemma email_invalid p v :
  email_valid v = false ->
  issues_of (Users.email_schema p v) <> []
  /\ Forall (fun issue => path issue = p) (issues_of (Users.email_schema p v)).
Proof.
  destruct v; try (intros _; split; [discriminate | repeat constructor]).
  cbn [email_valid]. intros H. rewrite email_issues, H.
  split; [discriminate | repeat constructor].
Qed.


Lemma age_default p : Users.age_schema p VUndefined = OK (Some 28%Q).
Proof. reflexivity. Qed.

Lemma age_number p x :
  Users.age_schema p (VNum x)
  = map_return Some
      (with_issues x
         ((if isInteger x then []
           else [mkIssue invalid_type p "Expected integer, received float"])
          ++ (if Qlt_bool x 18 then [mkIssue too_small p "Age must be at least 18"] else [])
          ++ (if Qlt_bool 100 x then [mkIssue too_big p "Age must be at most 100"] else []))).
Proof.
  unfold Users.age_schema, z_default, z_optional, z_number.
  cbn [flat_map number_check]. rewrite app_nil_r. reflexivity.
Qed.

Lemma age_OK p v :
  age_valid v = true ->
  exists a, Users.age_schema p v = OK (Some a)
            /\ (v = VUndefined /\ a = 28%Q \/ v = VNum a).
Proof.
  destruct v; try discriminate; cbn [age_valid]; intros H.
  - exists 28%Q. split; [apply age_default | left; split; reflexivity].
  - exists x. split; [|right; reflexivity].
    apply andb_true_iff in H as [H H100]. apply andb_true_iff in H as [Hint H18].
    rewrite age_number. unfold Qlt_bool. rewrite Hint, H18, H100. reflexivity.
Qed.

Lemma age_invalid p v :
  age_valid v = false ->
  issues_of (Users.age_schema p v) <> []
  /\ Forall (fun issue => path issue = p) (issues_of (Users.age_schema p v)).
Proof.
  destruct v; try discriminate;
    try (intros _; split; [discriminate | repeat constructor]).
  cbn [age_valid]. intros H. rewrite age_number. unfold Qlt_bool.
  destruct (isInteger x), (Qle_bool 18 x), (Qle_bool x 100); try discriminate H;
    cbn; split; solve [discriminate | repeat constructor].
Qed.

Lemma detail_field_at k issue :
  path issue = [KStr k] -> Users.field (detail_of issue) = k.
Proof.
  intros H. unfold detail_of. cbn [Users.field]. rewrite H. reflexivity.
Qed.

(** The fields named by the details of one member: its own name, when the
    member breaks its constraint, and none otherwise. *)
Lemma member_fields {A} (r : ParseReturn A) k (valid : bool) :
  (valid = true -> issues_of r = []) ->
  (valid = false ->
   issues_of r <> [] /\ Forall (fun issue => path issue = [KStr k]) (issues_of r)) ->
  forall f,
    In f (if valid then [] else [k])
    <-> In f (map Users.field (map detail_of (issues_of r))).
Proof.
  intros Hv Hi f. destruct valid.
  - rewrite (Hv eq_refl). reflexivity.
  - destruct (Hi eq_refl) as [Hne Hall]. rewrite Forall_forall in Hall. split.
    + intros [<- | []]. destruct (issues_of r) as [|issue rest]; [congruence|].
      left. apply detail_field_at, Hall. left. reflexivity.
    + intros H. apply in_map_iff in H as (d & <- & H).
      apply in_map_iff in H as (issue & <- & H).
      left. symmetry. apply detail_field_at, Hall, H.
Qed.

Lemma name_fields members f :
  In f (if name_valid (member "name" members) then [] else ["name"])
  <-> In f (map Users.field
              (map detail_of
                 (issues_of (Users.name_schema [KStr "name"] (member "name" members))))).
Proof.
  apply member_fields.
  - intros H. destruct (name_OK [KStr "name"] _ H) as (s & _ & ->). reflexivity.
  - apply name_invalid.
Qed.

Lemma age_fields members f :
  In f (if age_valid (member "age" members) then [] else ["age"])
  <-> In f (map Users.field
              (map detail_of
                 (issues_of (Users.age_schema [KStr "age"] (member "age" members))))).
Proof.
  apply member_fields.
  - intros H. destruct (age_OK [KStr "age"] _ H) as (a & -> & _). reflexivity.
  - apply age_invalid.
Qed.

Lemma email_fields members f :
  In f (if email_valid (member "email" members) then [] else ["email"])
  <-> In f (map Users.field
              (map detail_of
                 (issues_of (Users.email_schema [KStr "email"] (member "email" members))))).
Proof.
  apply member_fields.
  - intros H. destruct (email_OK [KStr "email"] _ H) as (s & _ & ->). reflexivity.
  - apply email_invalid.
Qed.

Lemma violated_fields_reported members f :
  In f (violated_fields members)
  <-> In f (map Users.field (map detail_of (user_issues members))).
Proof.
  unfold violated_fields, user_issues.
  rewrite !map_app, !in_app_iff, name_fields, age_fields, email_fields. reflexivity.
Qed.

(** C3. A body (an object) that breaks the constraint of one field or more is
    answered 400 with the error "Validation failed", and the fields named by
    the details are the violated fields, all of them: every member is
    checked, and no issue is dropped after the first. *)
Theorem all_violated_fields_reported (members : list (string * value)) :
  violated_fields members <> [] ->
  exists details,
    post_users (VObj members)
    = status_json 400 (ValidationFailed "Validation failed" details)
    /\ forall f, In f (violated_fields members) <-> In f (map Users.field details).
Proof.
  intros H. exists (map detail_of (user_issues members)). split.
  - apply post_users_invalid. intros E.
    destruct (violated_fields members) as [|f rest] eqn:V; [congruence|].
    assert (In f (violated_fields members)) as Hf by (rewrite V; left; reflexivity).
    apply violated_fields_reported in Hf. rewrite E in Hf. exact Hf.
  - apply violated_fields_reported.
Qed.

Lemma all_violated_fields_reported_example :
  violated_fields [("name", VStr "ab"); ("email", VStr "not-an-email")] = ["name"; "email"]
  /\ post_users (VObj [("name", VStr "ab"); ("email", VStr "not-an-email")])
     = status_json 400
         (ValidationFailed "Validation failed"
            [ {| Users.field := "name";
                 Users.message := "Name must be at least 3 characters" |};
              {| Users.field := "email"; Users.message := "Must be a valid email" |} ])
  /\ exists details,
      post_users (VObj [("name", VStr "ab"); ("email", VStr "not-an-email")])
      = status_json 400 (ValidationFailed "Validation failed" details)
      /\ forall f,
          In f (violated_fields [("name", VStr "ab"); ("email", VStr "not-an-email")])
          <-> In f (map Users.field details).
Proof.
  split; [reflexivity|]. split; [reflexivity|].
  apply (all_violated_fields_reported [("name", VStr "ab"); ("email", VStr "not-an-email")]).
  discriminate.
Defined.

(** C7. A body whose name is a string shorter than 3 or longer than 12 is
    answered 400, with a details entry for the field "name" whose message is
    "Name must be at least 3 characters" when the name is too short and "Name
    must be at most 12 characters" when it is too long. *)
Theorem name_length_rejected (members : list (string * value)) (s : string) :
  member "name" members = VStr s ->
  (String.length s < 3 \/ 12 < String.length s)%nat ->
  exists details,
    post_users (VObj members)
    = status_json 400 (ValidationFailed "Validation failed" details)
    /\ ((String.length s < 3)%nat ->
        In {| Users.field := "name";
              Users.message := "Name must be at least 3 characters" |} details)
    /\ ((12 < String.length s)%nat ->
        In {| Users.field := "name";
              Users.message := "Name must be at most 12 characters" |} details).
Proof.
  intros Hname Hlen. exists (map detail_of (user_issues members)).
  assert (Hissues : user_issues members
                    = (((if (String.length s <? 3)%nat
                         then [mkIssue too_small [KStr "name"]
                                 "Name must be at least 3 characters"] else [])
                        ++ (if (12 <? String.length s)%nat
                            then [mkIssue too_big [KStr "name"]
                                    "Name must be at most 12 characters"] else []))
                       ++ (issues_of (Users.age_schema [KStr "age"] (member "age" members))
                           ++ issues_of (Users.email_schema [KStr "email"]
                                           (member "email" members))))%list).
  { unfold user_issues. rewrite Hname, name_issues. reflexivity. }
  split; [|split].
  - apply post_users_invalid. rewrite Hissues.
    intros E. apply app_eq_nil in E as [E _]. apply app_eq_nil in E as [E1 E2].
    destruct Hlen as [H | H]; apply Nat.ltb_lt in H; rewrite H in *; discriminate.
  - intros H. apply Nat.ltb_lt in H. rewrite Hissues, H. left. reflexivity.
  - intros H. apply Nat.ltb_lt in H. rewrite Hissues, H, !map_app.
    apply in_or_app. left. apply in_or_app. right. left. reflexivity.
Qed.

Lemma name_length_rejected_example :
  member "name" [("name", VStr "Al"); ("email", VStr "al@example.com")] = VStr "Al"
  /\ (String.length "Al" < 3 \/ 12 < String.length "Al")%nat
  /\ exists details,
      post_users (VObj [("name", VStr "Al"); ("email", VStr "al@example.com")])
      = status_json 400 (ValidationFailed "Validation failed" details)
      /\ ((String.length "Al" < 3)%nat ->
          In {| Users.field := "name";
                Users.message := "Name must be at least 3 characters" |} details)
      /\ ((12 < String.length "Al")%nat ->
          In {| Users.field := "name";
                Users.message := "Name must be at most 12 characters" |} details).
Proof.
  split; [reflexivity|]. split; [left; cbn; lia|].
  apply (name_length_rejected [("name", VStr "Al"); ("email", VStr "al@example.com")] "Al").
  - reflexivity.
  - left. cbn. lia.
Defined.

Lemma age_OK_valid p v a : Users.age_schema p v = OK a -> age_valid v = true.
Proof.
  intros H. destruct (age_valid v) eqn:E; [reflexivity|].
  destruct (age_invalid p v E) as [Hne _]. rewrite H in Hne. contradiction Hne. reflexivity.
Qed.

Lemma status_created members :
  status (post_users (VObj members)) = 201%nat ->
  exists u, post_users (VObj members) = status_json 201 (ValidatedUser u).
Proof.
  unfold post_users. destruct (parse Users.UserSchema (VObj members)) as [u|[]];
    cbn; try discriminate. eauto.
Qed.

(** C5. A body whose name and email satisfy their constraints is answered 201
    with age 28 when it has no age field; with its own age when that is an
    integer from 18 to 100; and an age that is present is such an integer
    whenever the answer is 201. *)
Theorem age_defaults_to_28 (members : list (string * value)) (n e : string) :
  member "name" members = VStr n ->
  (3 <= String.length n <= 12)%nat ->
  member "email" members = VStr e ->
  emailRegex_test e = true ->
  (has_key "age" (VObj members) = false ->
   post_users (VObj members)
   = status_json 201
       (ValidatedUser {| Users.name := n; Users.age := Some 28%Q;
                         Users.email := toLowerCase e |}))
  /\ (forall x,
         member "age" members = VNum x ->
         isInteger x = true -> (18 <= x)%Q -> (x <= 100)%Q ->
         post_users (VObj members)
         = status_json 201
             (ValidatedUser {| Users.name := n; Users.age := Some x;
                               Users.email := toLowerCase e |}))
  /\ (member "age" members <> VUndefined ->
      status (post_users (VObj members)) = 201%nat ->
      exists x,
        member "age" members = VNum x
        /\ isInteger x = true /\ (18 <= x)%Q /\ (x <= 100)%Q).
Proof.
  intros Hname Hlen Hemail Hregex.
  assert (Hn : Users.name_schema [KStr "name"] (member "name" members) = OK n).
  { destruct (name_OK [KStr "name"] (member "name" members)) as (s & E & ->).
    - rewrite Hname. cbn [name_valid]. apply andb_true_iff.
      split; apply Nat.leb_le; lia.
    - rewrite Hname in E. injection E as ->. reflexivity. }
  assert (He : Users.email_schema [KStr "email"] (member "email" members)
               = OK (toLowerCase e)).
  { destruct (email_OK [KStr "email"] (member "email" members)) as (s & E & ->).
    - rewrite Hemail. exact Hregex.
    - rewrite Hemail in E. injection E as ->. reflexivity. }
  split; [|split].
  - intros Habsent. apply post_users_valid; [exact Hn | | exact He].
    rewrite (member_absent _ _ Habsent). apply age_default.
  - intros x Hage Hint H18 H100. apply post_users_valid; [exact Hn | | exact He].
    destruct (age_OK [KStr "age"] (member "age" members)) as (a & -> & [[E _] | E]).
    + rewrite Hage. cbn [age_valid].
      apply Qle_bool_iff in H18. apply Qle_bool_iff in H100.
      rewrite Hint, H18, H100. reflexivity.
    + rewrite Hage in E. discriminate E.
    + rewrite Hage in E. injection E as ->. reflexivity.
  - intros Hpresent Hstatus.
    destruct (status_created members Hstatus) as (u & Hu).
    destruct (post_users_created members u Hu) as (_ & a & _ & _ & Ha & _ & _).
    apply age_OK_valid in Ha.
    destruct (member "age" members); try discriminate Ha; [congruence|].
    cbn [age_valid] in Ha.
    apply andb_true_iff in Ha as [Ha H100]. apply andb_true_iff in Ha as [Hint H18].
    exists x. repeat split; [exact Hint | |]; apply Qle_bool_iff; assumption.
Qed.

Lemma age_defaults_to_28_example :
  has_key "age" (VObj [("name", VStr "Ada"); ("email", VStr "ada@example.com")]) = false
  /\ post_users (VObj [("name", VStr "Ada"); ("email", VStr "ada@example.com")])
     = status_json 201
         (ValidatedUser {| Users.name := "Ada"; Users.age := Some 28%Q;
                           Users.email := "ada@example.com" |}).
Proof.
  split; [reflexivity|].
  assert (Hlen : (3 <= String.length "Ada" <= 12)%nat) by (cbn; lia).
  destruct (age_defaults_to_28 [("name", VStr "Ada"); ("email", VStr "ada@example.com")]
              "Ada" "ada@example.com" eq_refl Hlen eq_refl eq_refl) as [Habsent _].
  apply Habsent. reflexivity.
Defined.





(** ** Further properties of the routes *)

(** The Person schema and the shape of a Person accept the same records. *)
Lemma person_schema_shape (p : list key) (item : value) :
  (exists person, RandomUser.PersonSchema p item = OK person) <-> person_shape item = true.
Proof.
  split.
  - intros (person & H).
    destruct (validated_person p item person H) as (H1 & H2 & H3 & H4 & H5 & H6 & H7).
    unfold person_shape. rewrite H1, H2, H3, H4, H5, H6, H7.
    destruct (RandomUser.postcode (RandomUser.location person)); reflexivity.
  - unfold person_shape. intros H.
    destruct item as [| | | | | |members]; try discriminate H. cbn [get] in H.
    destruct (member "name" members) as [| | | | | |name] eqn:Ename; try discriminate H.
    cbn [get] in H.
    destruct (member "first" name) as [| | | |first| |] eqn:Efirst; try discriminate H.
    destruct (member "last" name) as [| | | |last| |] eqn:Elast; try discriminate H.
    destruct (member "location" members) as [| | | | | |location] eqn:Elocation;
      try discriminate H.
    cbn [get] in H.
    destruct (member "country" location) as [| | | |country| |] eqn:Ecountry;
      try discriminate H.
    destruct (member "city" location) as [| | | |city| |] eqn:Ecity; try discriminate H.
    destruct (member "login" members) as [| | | | | |login] eqn:Elogin;
      try (destruct (member "postcode" location); discriminate H).
    cbn [get] in H.
    destruct (member "username" login) as [| | | |username| |] eqn:Eusername;
      try (destruct (member "postcode" location); discriminate H).
    destruct (member "registered" members) as [| | | | | |registered] eqn:Eregistered;
      try (destruct (member "postcode" location); discriminate H).
    cbn [get] in H.
    destruct (member "date" registered) as [| | | |date| |] eqn:Edate;
      try (destruct (member "postcode" location); discriminate H).
    unfold RandomUser.PersonSchema, z_object, shape_field, shape_of.
    rewrite Ename, Elocation, Elogin, Eregistered.
    rewrite Efirst, Elast, Ecountry, Ecity, Eusername, Edate.
    destruct (member "postcode" location); try discriminate H; eexists; reflexivity.
Qed.

(** X1. A record of the upstream response validates exactly when it has the
    shape of a Person. *)
Theorem person_validates_iff_shape (p : list key) (item : value) :
  (exists person, RandomUser.PersonSchema p item = OK person) <-> person_shape item = true.
Proof.
  exact (person_schema_shape p item).
Qed.

(** X2. random-person answers the first record of a validated response with its
    first name, a space and its last name as [fullName], and the country of
    its location. *)
Theorem random_person_shape (data item : value) (validatedData : RandomUser.ApiResponse) :
  parse RandomUser.RandomUserApiResponseSchema data = Normal validatedData ->
  first_result data = Some item ->
  exists first last country,
    get "first" (get "name" item) = VStr first
    /\ get "last" (get "name" item) = VStr last
    /\ get "country" (get "location" item) = VStr country
    /\ random_person (Json data) = json (PersonResult (first ++ " " ++ last) country).
Proof.
  intros H Hitem.
  pose proof (validated_first data validatedData H) as F.
  rewrite Hitem in F. destruct F as (person & E & F).
  destruct (validated_person [] item person E) as (Hfirst & Hlast & Hcountry & _).
  exists (RandomUser.first (RandomUser.name person)),
    (RandomUser.last (RandomUser.name person)),
    (RandomUser.country (RandomUser.location person)).
  repeat split; try assumption.
  apply (routes_on_person integers_only standard_dates_only data _ _ H F).
Qed.

Lemma random_person_shape_example :
  first_result (api_response [ada (VNum 12345) "2020-05-01T00:00:00Z"])
  = Some (ada (VNum 12345) "2020-05-01T00:00:00Z")
  /\ random_person (Json (api_response [ada (VNum 12345) "2020-05-01T00:00:00Z"]))
     = json (PersonResult "Ada Lovelace" "UK").
Proof.
  split; [reflexivity|].
  destruct (random_person_shape
              (api_response [ada (VNum 12345) "2020-05-01T00:00:00Z"])
              (ada (VNum 12345) "2020-05-01T00:00:00Z") _ eq_refl eq_refl)
    as (first & last & country & Hfirst & Hlast & Hcountry & ->).
  injection Hfirst as <-. injection Hlast as <-. injection Hcountry as <-.
  reflexivity.
Defined.

(** X3. A body of [POST /users] that is a JSON array, the one kind of JSON
    body other than an object that reaches the handler, is answered 400 with
    one details entry, at the empty path, with the message
    "Expected object, received array". *)
Theorem array_body_is_rejected (items : list value) :
  post_users (VArr items)
  = status_json 400
      (ValidationFailed "Validation failed"
         [ {| Users.field := "";
              Users.message := "Expected object, received array" |} ]).
Proof. reflexivity. Qed.

(** X4. An email that is not a string is answered 400 by the type check, with a
    details entry for the field "email" that names the type received
    ("Required" when the email is absent). *)
Theorem email_must_be_string (members : list (string * value)) :
  match member "email" members with
  | VStr _ => True
  | v =>
      exists details,
        post_users (VObj members)
        = status_json 400 (ValidationFailed "Validation failed" details)
        /\ In {| Users.field := "email";
                 Users.message := invalid_type_message "string" (getParsedType v) |}
             details
  end.
Proof.
  destruct (member "email" members) eqn:E; try exact I;
    exists (map detail_of (user_issues members));
    (split;
     [ apply post_users_invalid; unfold user_issues; rewrite E; intros H;
       apply app_eq_nil in H as [_ H]; apply app_eq_nil in H as [_ H]; discriminate H
     | unfold user_issues; rewrite E, !map_app;
       apply in_or_app; right; apply in_or_app; right; left; reflexivity ]).
Qed.

(** X5. Every broken constraint of a field has an entry of its own: an age that
    is not an integer and is below 18 has two. *)
Theorem each_broken_constraint_reported (members : list (string * value)) (x : Q) :
  member "age" members = VNum x ->
  isInteger x = false ->
  (x < 18)%Q ->
  exists details,
    post_users (VObj members)
    = status_json 400 (ValidationFailed "Validation failed" details)
    /\ In {| Users.field := "age"; Users.message := "Expected integer, received float" |}
         details
    /\ In {| Users.field := "age"; Users.message := "Age must be at least 18" |} details.
Proof.
  intros Hage Hint Hlt.
  assert (Hmin : Qlt_bool x 18 = true).
  { unfold Qlt_bool. destruct (Qle_bool 18 x) eqn:E; [|reflexivity].
    apply Qle_bool_iff in E. exfalso. exact (Qlt_not_le _ _ Hlt E). }
  assert (Hissues : issues_of (Users.age_schema [KStr "age"] (member "age" members))
                    = ([mkIssue invalid_type [KStr "age"] "Expected integer, received float";
                        mkIssue too_small [KStr "age"] "Age must be at least 18"]
                       ++ (if Qlt_bool 100 x
                           then [mkIssue too_big [KStr "age"] "Age must be at most 100"]
                           else []))%list).
  { rewrite Hage, age_number, Hint, Hmin.
    destruct (Qlt_bool 100 x); reflexivity. }
  assert (Hin : forall issue,
             In issue [mkIssue invalid_type [KStr "age"] "Expected integer, received float";
                       mkIssue too_small [KStr "age"] "Age must be at least 18"] ->
             In issue (user_issues members)).
  { intros issue H. unfold user_issues. rewrite Hissues.
    apply in_or_app. right. apply in_or_app. left. apply in_or_app. left. exact H. }
  exists (map detail_of (user_issues members)). split; [|split].
  - apply post_users_invalid. intros E.
    specialize (Hin _ (or_introl eq_refl)). rewrite E in Hin. exact Hin.
  - apply (in_map detail_of _ _ (Hin _ (or_introl eq_refl))).
  - apply (in_map detail_of _ _ (Hin _ (or_intror (or_introl eq_refl)))).
Qed.

Lemma each_broken_constraint_reported_example :
  member "age" [("name", VStr "Ada"); ("age", VNum (35 # 2));
                ("email", VStr "ada@example.com")] = VNum (35 # 2)
  /\ post_users (VObj [("name", VStr "Ada"); ("age", VNum (35 # 2));
                       ("email", VStr "ada@example.com")])
     = status_json 400
         (ValidationFailed "Validation failed"
            [ {| Users.field := "age";
                 Users.message := "Expected integer, received float" |};
              {| Users.field := "age"; Users.message := "Age must be at least 18" |} ])
  /\ exists details,
      post_users (VObj [("name", VStr "Ada"); ("age", VNum (35 # 2));
                        ("email", VStr "ada@example.com")])
      = status_json 400 (ValidationFailed "Validation failed" details)
      /\ In {| Users.field := "age";
               Users.message := "Expected integer, received float" |} details
      /\ In {| Users.field := "age"; Users.message := "Age must be at least 18" |} details.
Proof.
  split; [reflexivity|]. split; [reflexivity|].
  apply (each_broken_constraint_reported
           [("name", VStr "Ada"); ("age", VNum (35 # 2)); ("email", VStr "ada@example.com")]
           (35 # 2)); reflexivity.
Defined.

(** ** The routes, for every input *)

Lemma under_apart p k k' issue :
  under (p ++ [k]) issue -> under (p ++ [k']) issue -> k = k'.
Proof.
  intros [s H] [s' H']. rewrite H, <- !app_assoc in H'.
  apply app_inv_head in H'. cbn in H'. congruence.
Qed.

Lemma issues_not_OK {A} (r : ParseReturn A) : issues_of r <> [] -> ok_of r = None.
Proof.
  destruct r; cbn; congruence.
Qed.

Lemma person_ok_shape p item :
  ok_of (RandomUser.PersonSchema p item) = None <-> person_shape item = false.
Proof.
  pose proof (person_schema_shape p item) as [H1 H2].
  destruct (RandomUser.PersonSchema p item) as [person| |] eqn:E; cbn.
  - rewrite (H1 (ex_intro _ person eq_refl)). split; discriminate.
  - split; [|reflexivity]. intros _.
    destruct (person_shape item); [|reflexivity].
    destruct (H2 eq_refl) as (person & H). discriminate H.
  - split; [|reflexivity]. intros _.
    destruct (person_shape item); [|reflexivity].
    destruct (H2 eq_refl) as (person & H). discriminate H.
Qed.

(** The elements of an array all parse, or the array does not. *)
Lemma parse_items_valid p i items :
  ok_of (parse_items RandomUser.PersonSchema p i items) <> None
  <-> forallb person_shape items = true.
Proof.
  revert i. induction items as [|item rest IH]; intros i; cbn [parse_items forallb].
  - cbn. split; [reflexivity | discriminate].
  - rewrite ok_of_merge, andb_true_iff, <- (IH (S i)).
    pose proof (person_ok_shape (p ++ [KIdx i])%list item) as Hs.
    destruct (ok_of (RandomUser.PersonSchema (p ++ [KIdx i])%list item)) eqn:E1.
    + assert (person_shape item = true) as ->.
      { destruct (person_shape item); [reflexivity|].
        destruct Hs as [_ Hs]. discriminate (Hs eq_refl). }
      destruct (ok_of (parse_items RandomUser.PersonSchema p (S i) rest)); split.
      * intros _. split; [reflexivity | discriminate].
      * discriminate.
      * intros H. contradiction H. reflexivity.
      * intros [_ H]. exact H.
    + destruct Hs as [Hs _]. rewrite (Hs eq_refl). split.
      * intros H. contradiction H. reflexivity.
      * intros [H _]. discriminate H.
Qed.

Lemma schema_on_results members items :
  member "results" members = VArr items ->
  issues_of (RandomUser.RandomUserApiResponseSchema [] (VObj members))
  = issues_of (parse_items RandomUser.PersonSchema [KStr "results"] 0 items)
  /\ ok_of (RandomUser.RandomUserApiResponseSchema [] (VObj members))
     = option_map RandomUser.Build_ApiResponse
         (ok_of (parse_items RandomUser.PersonSchema [KStr "results"] 0 items)).
Proof.
  intros H. unfold RandomUser.RandomUserApiResponseSchema, z_object, shape_field, shape_of.
  rewrite issues_of_merge, ok_of_merge, H. cbn [app z_array issues_of ok_of].
  split; [reflexivity|].
  destruct (ok_of (parse_items RandomUser.PersonSchema [KStr "results"] 0 items));
    reflexivity.
Qed.

(** The response schema and the shape of a response accept the same data. *)
Lemma response_schema_shape (data : value) :
  (exists validatedData,
      parse RandomUser.RandomUserApiResponseSchema data = Normal validatedData)
  <-> response_shape data = true.
Proof.
  unfold response_shape.
  destruct data as [| | | | | |members];
    try (split; [intros (v & H); discriminate H | discriminate]).
  cbn [get].
  destruct (member "results" members) as [| | | | |items|] eqn:E;
    try (split; [|discriminate]; intros (v & H); apply parse_Normal in H;
         unfold RandomUser.RandomUserApiResponseSchema, z_object, shape_field in H;
         rewrite E in H; discriminate H).
  destruct (schema_on_results members items E) as [_ Hok].
  rewrite <- (parse_items_valid [KStr "results"] 0 items). split.
  - intros (v & H). apply parse_Normal in H. rewrite H in Hok. cbn in Hok.
    destruct (ok_of (parse_items _ _ _ items)); [discriminate | discriminate Hok].
  - intros H.
    destruct (ok_of (parse_items RandomUser.PersonSchema [KStr "results"] 0 items))
      as [l|] eqn:El; [|contradiction H; reflexivity].
    exists (RandomUser.Build_ApiResponse l). apply parse_Normal, ok_of_OK. exact Hok.
Qed.

(** X6. An upstream response validates exactly when it has the shape of the
    specification. *)
Theorem response_validates_iff_shape (data : value) :
  (exists validatedData,
      parse RandomUser.RandomUserApiResponseSchema data = Normal validatedData)
  <-> response_shape data = true.
Proof.
  exact (response_schema_shape data).
Qed.

Lemma shape_false_throws data :
  response_shape data = false ->
  exists errors,
    errors <> []
    /\ parse RandomUser.RandomUserApiResponseSchema data = Throw (ZodError errors).
Proof.
  intros H.
  destruct (parse RandomUser.RandomUserApiResponseSchema data) as [v|e] eqn:E.
  - assert (response_shape data = true) by (apply response_schema_shape; eauto).
    congruence.
  - destruct (validation_failure data e E) as (errors & -> & Hne & _). eauto.
Qed.

Lemma shape_true_parses data :
  response_shape data = true ->
  exists validatedData,
    parse RandomUser.RandomUserApiResponseSchema data = Normal validatedData.
Proof. apply response_schema_shape. Qed.

(** X7. What the three routes answer, for every outcome of the fetch: the
    generic 500 when there is no JSON; the validation 500 when the data has
    not the shape of a response; the generic 500 when the shape is right and
    there is no first record; 200 otherwise, for random-login when the
    registration date is a valid date, and the generic 500 when it is not. *)
Theorem random_routes_outcomes
  (float_toString : Q -> string) (host_date_parse : string -> option Z) (up : upstream) :
  let generic what := status_json 500 (Failure ("Failed to fetch random " ++ what)) in
  match up with
  | Json data =>
      if response_shape data then
        match first_result data with
        | Some item =>
            status (random_person up) = 200%nat
            /\ status (random_address float_toString up) = 200%nat
            /\ exists date,
                get "date" (get "registered" item) = VStr date
                /\ match new_Date host_date_parse date with
                   | Some _ => status (random_login host_date_parse up) = 200%nat
                   | None => random_login host_date_parse up = generic "login"
                   end
        | None =>
            random_person up = generic "person"
            /\ random_address float_toString up = generic "address"
            /\ random_login host_date_parse up = generic "login"
        end
      else
        exists errors,
          errors <> []
          /\ random_person up
             = status_json 500 (InvalidResponse "Invalid response from RandomUser API" errors)
          /\ random_address float_toString up
             = status_json 500 (InvalidResponse "Invalid response from RandomUser API" errors)
          /\ random_login host_date_parse up
             = status_json 500 (InvalidResponse "Invalid response from RandomUser API" errors)
  | _ =>
      random_person up = generic "person"
      /\ random_address float_toString up = generic "address"
      /\ random_login host_date_parse up = generic "login"
  end.
Proof.
  cbv zeta. destruct up as [| |data]; try (repeat split; reflexivity).
  destruct (response_shape data) eqn:Hshape.
  - destruct (shape_true_parses data Hshape) as (v & Hv).
    pose proof (validated_first data v Hv) as F.
    destruct (first_result data) as [item|].
    + destruct F as (person & E & F).
      destruct (routes_on_person float_toString host_date_parse data v person Hv F)
        as (-> & -> & ->).
      destruct (validated_person [] item person E) as (_ & _ & _ & _ & _ & _ & Hd).
      split; [reflexivity|]. split; [reflexivity|].
      exists (RandomUser.date (RandomUser.registered person)). split; [exact Hd|].
      destruct (new_Date host_date_parse _); reflexivity.
    + exact (routes_on_empty float_toString host_date_parse data v Hv F).
  - destruct (shape_false_throws data Hshape) as (errors & Hne & Hp).
    exists errors. split; [exact Hne|].
    exact (routes_on_ZodError float_toString host_date_parse data errors Hp).
Qed.

(** The issues under the element of index [j] of an array: there are some
    exactly when that element does not parse. *)
Lemma parse_items_issue_at {A} (element : ZodType A) :
  located element ->
  forall items p i j,
    (exists issue,
        In issue (issues_of (parse_items element p i items))
        /\ under (p ++ [KIdx j]) issue)
    <-> (i <= j)%nat
        /\ exists item,
            nth_error items (j - i) = Some item
            /\ ok_of (element (p ++ [KIdx j])%list item) = None.
Proof.
  intros He items. induction items as [|item rest IH]; intros p i j.
  - cbn. split.
    + intros (issue & [] & _).
    + intros (_ & item & H & _). destruct (j - i)%nat; discriminate H.
  - cbn [parse_items]. rewrite issues_of_merge.
    destruct (He (p ++ [KIdx i])%list item) as (Hu & _ & Hs).
    rewrite Forall_forall in Hu. split.
    + intros (issue & Hin & Hunder). apply in_app_or in Hin as [Hin | Hin].
      * pose proof (under_apart p _ _ issue (Hu issue Hin) Hunder) as E.
        injection E as <-. split; [lia|]. exists item.
        rewrite Nat.sub_diag. split; [reflexivity|].
        apply issues_not_OK. intros E. rewrite E in Hin. exact Hin.
      * destruct (proj1 (IH p (S i) j)) as (Hle & item' & Hnth & Hnone).
        { exists issue. split; assumption. }
        split; [lia|]. exists item'. split; [|exact Hnone].
        replace (j - i)%nat with (S (j - S i)) by lia. exact Hnth.
    + intros (Hle & item' & Hnth & Hnone).
      destruct (Nat.eq_dec i j) as [<- | Hneq].
      * rewrite Nat.sub_diag in Hnth. injection Hnth as <-.
        destruct (issues_of (element (p ++ [KIdx i])%list item)) as [|issue l] eqn:E;
          [contradiction (Hs Hnone); reflexivity|].
        exists issue. split; [left; reflexivity | apply Hu; left; reflexivity].
      * destruct (proj2 (IH p (S i) j)) as (issue & Hin & Hunder).
        { split; [lia|]. exists item'. split; [|exact Hnone].
          replace (j - i)%nat with (S (j - S i)) in Hnth by lia. exact Hnth. }
        exists issue. split; [apply in_or_app; right; exact Hin | exact Hunder].
Qed.

(** X8. Every record of the response is validated, not only the first. When
    the routes answer the validation 500 for a response whose [results] is an
    array, the details name under [results.j] exactly the records [j] that
    have not the shape of a Person. *)
Theorem invalid_records_are_named
  (members : list (string * value)) (items : list value) (errors : list ZodIssue)
  (j : nat) :
  member "results" members = VArr items ->
  random_person (Json (VObj members))
  = status_json 500 (InvalidResponse "Invalid response from RandomUser API" errors) ->
  (exists issue, In issue errors /\ under [KStr "results"; KIdx j] issue)
  <-> (exists item, nth_error items j = Some item /\ person_shape item = false).
Proof.
  intros Hresults Hresponse.
  assert (Herrors : errors
                    = issues_of (parse_items RandomUser.PersonSchema [KStr "results"] 0 items)).
  { destruct (schema_on_results members items Hresults) as [<- _].
    unfold random_person in Hresponse. cbn [await bind] in Hresponse.
    destruct (parse RandomUser.RandomUserApiResponseSchema (VObj members)) as [v|e] eqn:E.
    - cbn [bind] in Hresponse.
      destruct (nth_error (RandomUser.results v) 0); discriminate Hresponse.
    - apply parse_Throw in E as [-> _]. cbn in Hresponse.
      injection Hresponse as <-. reflexivity. }
  subst errors.
  rewrite (parse_items_issue_at RandomUser.PersonSchema located_PersonSchema
             items [KStr "results"] 0 j).
  rewrite Nat.sub_0_r. split.
  - intros (_ & item & Hnth & Hnone). exists item. split; [exact Hnth|].
    apply (person_ok_shape ([KStr "results"] ++ [KIdx j])%list), Hnone.
  - intros (item & Hnth & Hshape). split; [lia|]. exists item. split; [exact Hnth|].
    apply person_ok_shape, Hshape.
Qed.

Lemma invalid_records_are_named_example :
  member "results"
    [("results", VArr [ada (VNum 12345) "2020-05-01T00:00:00Z"; VNull])]
  = VArr [ada (VNum 12345) "2020-05-01T00:00:00Z"; VNull]
  /\ random_person
       (Json (api_response [ada (VNum 12345) "2020-05-01T00:00:00Z"; VNull]))
     = status_json 500
         (InvalidResponse "Invalid response from RandomUser API"
            [mkIssue invalid_type [KStr "results"; KIdx 1] "Expected object, received null"])
  /\ ((exists issue,
          In issue [mkIssue invalid_type [KStr "results"; KIdx 1]
                      "Expected object, received null"]
          /\ under [KStr "results"; KIdx 1] issue)
      <-> (exists item,
              nth_error [ada (VNum 12345) "2020-05-01T00:00:00Z"; VNull] 1 = Some item
              /\ person_shape item = false)).
Proof.
  split; [reflexivity|]. split; [reflexivity|].
  apply (invalid_records_are_named
           [("results", VArr [ada (VNum 12345) "2020-05-01T00:00:00Z"; VNull])]
           [ada (VNum 12345) "2020-05-01T00:00:00Z"; VNull]); reflexivity.
Defined.

(** ** POST /users, for every body *)

Lemma violated_none members :
  violated_fields members = [] ->
  name_valid (member "name" members) = true
  /\ age_valid (member "age" members) = true
  /\ email_valid (member "email" members) = true.
Proof.
  unfold violated_fields.
  destruct (name_valid _), (age_valid _), (email_valid _); cbn; try discriminate.
  repeat split.
Qed.

Lemma violated_some_issues members :
  violated_fields members <> [] -> user_issues members <> [].
Proof.
  intros H E. destruct (violated_fields members) as [|f rest] eqn:V; [congruence|].
  assert (In f (violated_fields members)) as Hf by (rewrite V; left; reflexivity).
  apply violated_fields_reported in Hf. rewrite E in Hf. exact Hf.
Qed.

Lemma post_users_accepts members :
  violated_fields members = [] ->
  exists n a e,
    member "name" members = VStr n
    /\ (member "age" members = VUndefined /\ a = 28%Q \/ member "age" members = VNum a)
    /\ member "email" members = VStr e
    /\ post_users (VObj members)
       = status_json 201
           (ValidatedUser {| Users.name := n; Users.age := Some a;
                             Users.email := toLowerCase e |}).
Proof.
  intros H. destruct (violated_none members H) as (Hn & Ha & He).
  destruct (name_OK [KStr "name"] _ Hn) as (n & En & Hname).
  destruct (age_OK [KStr "age"] _ Ha) as (a & Hage & Ea).
  destruct (email_OK [KStr "email"] _ He) as (e & Ee & Hemail).
  exists n, a, e. repeat split; try assumption.
  apply post_users_valid; assumption.
Qed.

(** X9. [POST /users] answers 201 or 400 and nothing else, and 201 exactly
    for an object whose name, age and email satisfy their constraints; the
    returned object then has the name, the age (28 when absent) and the email
    in lower case, and no other member. *)
Theorem post_users_outcomes (req_body : value) :
  (status (post_users req_body) = 201%nat \/ status (post_users req_body) = 400%nat)
  /\ (status (post_users req_body) = 201%nat
      <-> exists members, req_body = VObj members /\ violated_fields members = [])
  /\ (forall members,
         req_body = VObj members -> violated_fields members = [] ->
         exists n a e,
           member "name" members = VStr n
           /\ (member "age" members = VUndefined /\ a = 28%Q
               \/ member "age" members = VNum a)
           /\ member "email" members = VStr e
           /\ post_users req_body
              = status_json 201
                  (ValidatedUser {| Users.name := n; Users.age := Some a;
                                    Users.email := toLowerCase e |})).
Proof.
  assert (Hcases : (exists members, req_body = VObj members /\ violated_fields members = []
                                    /\ status (post_users req_body) = 201%nat)
                   \/ ((forall members, req_body = VObj members ->
                                        violated_fields members <> [])
                       /\ status (post_users req_body) = 400%nat)).
  { destruct req_body as [| | | | | |members];
      try (right; split; [intros members H; discriminate H | reflexivity]).
    destruct (violated_fields members) as [|f rest] eqn:V.
    - left. exists members. repeat split; try assumption.
      destruct (post_users_accepts members V) as (n & a & e & _ & _ & _ & ->). reflexivity.
    - right. split.
      + intros members' H. injection H as <-. rewrite V. discriminate.
      + rewrite post_users_invalid; [reflexivity|].
        apply violated_some_issues. rewrite V. discriminate. }
  split; [|split].
  - destruct Hcases as [(_ & _ & _ & H) | (_ & H)]; [left | right]; exact H.
  - split.
    + intros H. destruct Hcases as [(members & E & V & _) | (_ & H')];
        [eauto | rewrite H in H'; discriminate H'].
    + intros (members & E & V).
      destruct Hcases as [(_ & _ & _ & H) | (Hno & _)];
        [exact H | contradiction (Hno members E V)].
  - intros members -> V. apply post_users_accepts, V.
Qed.

(** X10. The answer of [POST /users] to an object depends on its members
    [name], [age] and [email] only: other members are neither checked nor
    returned, and the order of the members is of no account. *)
Theorem post_users_reads_three_members (members members' : list (string * value)) :
  member "name" members = member "name" members' ->
  member "age" members = member "age" members' ->
  member "email" members = member "email" members' ->
  post_users (VObj members) = post_users (VObj members').
Proof.
  intros Hn Ha He. unfold post_users, parse.
  rewrite !UserSchema_object, Hn, Ha, He. reflexivity.
Qed.

Lemma post_users_reads_three_members_example :
  post_users (VObj [("name", VStr "Ada"); ("email", VStr "Ada@Example.com")])
  = status_json 201
      (ValidatedUser {| Users.name := "Ada"; Users.age := Some 28%Q;
                        Users.email := "ada@example.com" |})
  /\ post_users (VObj [("role", VStr "admin"); ("email", VStr "Ada@Example.com");
                       ("name", VStr "Ada")])
     = post_users (VObj [("name", VStr "Ada"); ("email", VStr "Ada@Example.com")]).
Proof.
  split; [reflexivity|].
  apply (post_users_reads_three_members
           [("role", VStr "admin"); ("email", VStr "Ada@Example.com"); ("name", VStr "Ada")]
           [("name", VStr "Ada"); ("email", VStr "Ada@Example.com")]); reflexivity.
Defined.

Lemma post_users_rejected members error details :
  post_users (VObj members) = status_json 400 (ValidationFailed error details) ->
  details = map detail_of (user_issues members) /\ user_issues members <> [].
Proof.
  intros H.
  destruct (violated_fields members) as [|f rest] eqn:V.
  - destruct (post_users_accepts members V) as (n & a & e & _ & _ & _ & E).
    rewrite E in H. discriminate H.
  - assert (Hne : user_issues members <> []).
    { apply violated_some_issues. rewrite V. discriminate. }
    rewrite (post_users_invalid members Hne) in H. injection H as _ <-.
    split; [reflexivity | exact Hne].
Qed.

Lemma fields_at k issues :
  Forall (fun issue => path issue = [KStr k]) issues ->
  map Users.field (map detail_of issues) = repeat k (List.length issues).
Proof.
  induction 1 as [|issue rest H _ IH]; [reflexivity|].
  cbn [map List.length repeat]. rewrite IH, (detail_field_at k issue H). reflexivity.
Qed.

Lemma name_issues_shape p v :
  Forall (fun issue => path issue = p) (issues_of (Users.name_schema p v))
  /\ (List.length (issues_of (Users.name_schema p v)) <= 1)%nat.
Proof.
  destruct v; try (split; [repeat constructor | cbn; lia]).
  rewrite name_issues.
  destruct (String.length s <? 3)%nat eqn:E3, (12 <? String.length s)%nat eqn:E12;
    try (split; [repeat constructor | cbn; lia]).
  apply Nat.ltb_lt in E3. apply Nat.ltb_lt in E12. lia.
Qed.

Lemma email_issues_shape p v :
  Forall (fun issue => path issue = p) (issues_of (Users.email_schema p v))
  /\ (List.length (issues_of (Users.email_schema p v)) <= 1)%nat.
Proof.
  destruct v; try (split; [repeat constructor | cbn; lia]).
  rewrite email_issues.
  destruct (emailRegex_test s); split; solve [repeat constructor | cbn; lia].
Qed.

Lemma issues_of_map_return {A B} (f : A -> B) r :
  issues_of (map_return f r) = issues_of r.
Proof. destruct r; reflexivity. Qed.

Lemma age_issues_shape p v :
  Forall (fun issue => path issue = p) (issues_of (Users.age_schema p v))
  /\ (List.length (issues_of (Users.age_schema p v)) <= 2)%nat.
Proof.
  destruct v; try (split; [repeat constructor | cbn; lia]).
  rewrite age_number, issues_of_map_return, issues_of_with_issues. unfold Qlt_bool.
  destruct (isInteger x), (Qle_bool 18 x) eqn:E18, (Qle_bool x 100) eqn:E100;
    try (split; [repeat constructor | cbn; lia]).
  exfalso.
  assert (H18 : (x < 18)%Q).
  { apply Qnot_le_lt. intros H. apply Qle_bool_iff in H. congruence. }
  assert (H100 : (100 < x)%Q).
  { apply Qnot_le_lt. intros H. apply Qle_bool_iff in H. congruence. }
  pose proof (Qlt_trans _ _ _ H100 H18) as H. discriminate H.
Qed.

(** X11. The details of a 400 of [POST /users] to an object follow the order
    of the schema, whatever the order of the members of the body: the entry
    of the name if there is one, then the entries of the age, two at most,
    then the entry of the email if there is one; between one and four entries
    in all. *)
Theorem details_follow_schema
  (members : list (string * value)) (error : string) (details : list Users.Detail) :
  post_users (VObj members) = status_json 400 (ValidationFailed error details) ->
  exists a b c,
    (a <= 1 /\ b <= 2 /\ c <= 1 /\ 1 <= a + b + c)%nat
    /\ map Users.field details
       = (repeat "name" a ++ repeat "age" b ++ repeat "email" c)%list.
Proof.
  intros H. apply post_users_rejected in H as [-> Hne].
  destruct (name_issues_shape [KStr "name"] (member "name" members)) as [Fn Ln].
  destruct (age_issues_shape [KStr "age"] (member "age" members)) as [Fa La].
  destruct (email_issues_shape [KStr "email"] (member "email" members)) as [Fe Le].
  exists (List.length (issues_of (Users.name_schema [KStr "name"] (member "name" members)))),
    (List.length (issues_of (Users.age_schema [KStr "age"] (member "age" members)))),
    (List.length (issues_of (Users.email_schema [KStr "email"] (member "email" members)))).
  split.
  - repeat split; try assumption.
    unfold user_issues in Hne.
    destruct (issues_of (Users.name_schema _ _)); [|cbn; lia].
    destruct (issues_of (Users.age_schema _ _)); [|cbn; lia].
    destruct (issues_of (Users.email_schema _ _)); [|cbn; lia].
    contradiction Hne. reflexivity.
  - unfold user_issues. rewrite !map_app.
    rewrite (fields_at "name" _ Fn), (fields_at "age" _ Fa), (fields_at "email" _ Fe).
    reflexivity.
Qed.

Lemma details_follow_schema_example :
  post_users (VObj [("email", VStr "nobody"); ("age", VNum (35 # 2)); ("name", VStr "Al")])
  = status_json 400
      (ValidationFailed "Validation failed"
         [ {| Users.field := "name";
              Users.message := "Name must be at least 3 characters" |};
           {| Users.field := "age"; Users.message := "Expected integer, received float" |};
           {| Users.field := "age"; Users.message := "Age must be at least 18" |};
           {| Users.field := "email"; Users.message := "Must be a valid email" |} ])
  /\ exists a b c,
      (a <= 1 /\ b <= 2 /\ c <= 1 /\ 1 <= a + b + c)%nat
      /\ ["name"; "age"; "age"; "email"]
         = (repeat "name" a ++ repeat "age" b ++ repeat "email" c)%list.
Proof.
  split; [reflexivity|].
  apply (details_follow_schema
           [("email", VStr "nobody"); ("age", VNum (35 # 2)); ("name", VStr "Al")]
           "Validation failed"
           [ {| Users.field := "name";
                Users.message := "Name must be at least 3 characters" |};
             {| Users.field := "age";
                Users.message := "Expected integer, received float" |};
             {| Users.field := "age"; Users.message := "Age must be at least 18" |};
             {| Users.field := "email"; Users.message := "Must be a valid email" |} ]).
  reflexivity.
Defined.

(** ** Letter case *)

Ltac each_unit c := destruct c as [[] [] [] [] [] [] [] []]; reflexivity.

Lemma lower_unit_idempotent c : lower_unit (lower_unit c) = lower_unit c.
Proof. each_unit c. Qed.

Lemma toLowerCase_idempotent s : toLowerCase (toLowerCase s) = toLowerCase s.
Proof.
  induction s as [|c s IH]; cbn; [reflexivity|].
  rewrite lower_unit_idempotent, IH. reflexivity.
Qed.

Lemma toLowerCase_length s : String.length (toLowerCase s) = String.length s.
Proof.
  induction s as [|c s IH]; cbn; [reflexivity | rewrite IH; reflexivity].
Qed.

Lemma forall_units_lower (p : ascii -> bool) s :
  (forall c, p (lower_unit c) = p c) ->
  forall_units p (toLowerCase s) = forall_units p s.
Proof.
  intros Hp. induction s as [|c s IH]; cbn; [reflexivity|].
  rewrite Hp, IH. reflexivity.
Qed.

Lemma local_class_lower c :
  (is_alnum (lower_unit c) || is_one_of "_'+-." (lower_unit c))
  = (is_alnum c || is_one_of "_'+-." c).
Proof. each_unit c. Qed.

Lemma local_last_class_lower c :
  (is_alnum (lower_unit c) || is_one_of "_+-" (lower_unit c))
  = (is_alnum c || is_one_of "_+-" c).
Proof. each_unit c. Qed.

Lemma label_class_lower c :
  (is_alnum (lower_unit c) || is_one_of "-" (lower_unit c))
  = (is_alnum c || is_one_of "-" c).
Proof. each_unit c. Qed.

Lemma is_alnum_lower c : is_alnum (lower_unit c) = is_alnum c.
Proof. each_unit c. Qed.

Lemma is_alpha_lower c : is_alpha (lower_unit c) = is_alpha c.
Proof. each_unit c. Qed.

Lemma at_sign_lower c : Ascii.eqb "@" (lower_unit c) = Ascii.eqb "@" c.
Proof. each_unit c. Qed.

Lemma dot_lower c : Ascii.eqb "." (lower_unit c) = Ascii.eqb "." c.
Proof. each_unit c. Qed.

Lemma starts_with_dot_eqb s :
  starts_with_dot s = match s with String c _ => Ascii.eqb "." c | EmptyString => false end.
Proof.
  destruct s as [|c s]; [reflexivity|]. each_unit c.
Qed.

Lemma has_dot_dot_step c s :
  has_dot_dot (String c s) = (Ascii.eqb "." c && starts_with_dot s) || has_dot_dot s.
Proof.
  destruct c as [[] [] [] [] [] [] [] []]; try reflexivity.
  destruct s as [|d s]; [reflexivity|]. each_unit d.
Qed.

Lemma starts_with_dot_lower s : starts_with_dot (toLowerCase s) = starts_with_dot s.
Proof.
  rewrite !starts_with_dot_eqb. destruct s as [|c s]; [reflexivity|].
  cbn [toLowerCase]. apply dot_lower.
Qed.

Lemma has_dot_dot_lower s : has_dot_dot (toLowerCase s) = has_dot_dot s.
Proof.
  induction s as [|c s IH]; [reflexivity|].
  cbn [toLowerCase]. rewrite !has_dot_dot_step, dot_lower, starts_with_dot_lower, IH.
  reflexivity.
Qed.

Lemma split_first_lower s :
  split_first "@" (toLowerCase s)
  = match split_first "@" s with
    | Some (before, after) => Some (toLowerCase before, toLowerCase after)
    | None => None
    end.
Proof.
  induction s as [|c s IH]; [reflexivity|].
  cbn [toLowerCase split_first]. rewrite at_sign_lower, IH.
  destruct (Ascii.eqb "@" c); [reflexivity|].
  destruct (split_first "@" s) as [[before after]|]; reflexivity.
Qed.

Lemma split_all_lower s :
  split_all "." (toLowerCase s) = map toLowerCase (split_all "." s).
Proof.
  induction s as [|c s IH]; [reflexivity|].
  cbn [toLowerCase split_all]. rewrite dot_lower, IH.
  destruct (Ascii.eqb "." c); [reflexivity|].
  destruct (split_all "." s); reflexivity.
Qed.

Lemma list_ascii_lower s :
  list_ascii_of_string (toLowerCase s) = map lower_unit (list_ascii_of_string s).
Proof.
  induction s as [|c s IH]; cbn; [reflexivity | rewrite IH; reflexivity].
Qed.

Lemma email_local_lower s : email_local (toLowerCase s) = email_local s.
Proof.
  unfold email_local, last_unit.
  rewrite (forall_units_lower _ s local_class_lower), list_ascii_lower, <- map_rev.
  destruct (rev (list_ascii_of_string s)) as [|c l]; [reflexivity|].
  cbn [map]. rewrite local_last_class_lower. reflexivity.
Qed.

Lemma email_label_lower s : email_label (toLowerCase s) = email_label s.
Proof.
  destruct s as [|c s]; [reflexivity|].
  cbn [toLowerCase email_label].
  rewrite is_alnum_lower, (forall_units_lower _ s label_class_lower). reflexivity.
Qed.

Lemma email_labels_lower labels :
  forallb email_label (map toLowerCase labels) = forallb email_label labels.
Proof.
  induction labels as [|label labels IH]; [reflexivity|].
  cbn [map forallb]. rewrite email_label_lower, IH. reflexivity.
Qed.

Lemma email_domain_lower s : email_domain (toLowerCase s) = email_domain s.
Proof.
  unfold email_domain. rewrite split_all_lower, <- map_rev.
  destruct (rev (split_all "." s)) as [|tld [|label labels]]; try reflexivity.
  cbn [map]. rewrite (forall_units_lower _ tld is_alpha_lower), toLowerCase_length.
  f_equal. apply (email_labels_lower (label :: labels)).
Qed.

(** The email pattern takes no account of the case of the letters. *)
Lemma emailRegex_lower s : emailRegex_test (toLowerCase s) = emailRegex_test s.
Proof.
  unfold emailRegex_test.
  rewrite starts_with_dot_lower, has_dot_dot_lower, split_first_lower.
  destruct (split_first "@" s) as [[before after]|]; [|reflexivity].
  rewrite email_local_lower, email_domain_lower. reflexivity.
Qed.

Lemma email_schema_string p s :
  Users.email_schema p (VStr s)
  = with_issues (toLowerCase s)
      (if emailRegex_test s then []
       else [mkIssue invalid_string p "Must be a valid email"]).
Proof.
  unfold Users.email_schema, z_string. cbn [string_checks string_check].
  rewrite !app_nil_r. reflexivity.
Qed.

Lemma name_OK_string p v n :
  Users.name_schema p v = OK n -> v = VStr n /\ name_valid v = true.
Proof.
  intros H. destruct (name_valid v) eqn:E.
  - destruct (name_OK p v E) as (s & -> & Hs). rewrite Hs in H. injection H as ->.
    split; reflexivity.
  - destruct (name_invalid p v E) as [Hne _]. rewrite H in Hne.
    contradiction Hne. reflexivity.
Qed.

Lemma email_OK_string p v e :
  Users.email_schema p v = OK e ->
  exists s, v = VStr s /\ e = toLowerCase s /\ emailRegex_test s = true.
Proof.
  intros H. destruct (email_valid v) eqn:E.
  - destruct (email_OK p v E) as (s & -> & Hs). rewrite Hs in H. injection H as <-.
    exists s. repeat split. exact E.
  - destruct (email_invalid p v E) as [Hne _]. rewrite H in Hne.
    contradiction Hne. reflexivity.
Qed.

Lemma post_users_created_object req_body u :
  post_users req_body = status_json 201 (ValidatedUser u) ->
  exists members, req_body = VObj members.
Proof.
  destruct req_body; try discriminate. eauto.
Qed.

(** X12. A validated object is a fixed point of [POST /users]: posted again
    as it was returned, it is accepted and returned unchanged. *)
Theorem post_users_idempotent (req_body : value) (u : Users.User) :
  post_users req_body = status_json 201 (ValidatedUser u) ->
  post_users (user_json u) = status_json 201 (ValidatedUser u).
Proof.
  intros H. destruct (post_users_created_object req_body u H) as (members & ->).
  destruct (post_users_created members u H) as (n & a & e & Hn & Ha & He & ->).
  destruct (name_OK_string _ _ _ Hn) as [En Vn].
  destruct (email_OK_string _ _ _ He) as (s & Es & -> & Vs).
  pose proof (age_OK_valid _ _ _ Ha) as Va.
  destruct (age_OK [KStr "age"] _ Va) as (x & Hx & Ex). rewrite Hx in Ha.
  injection Ha as <-.
  unfold user_json. cbn [Users.name Users.age Users.email app].
  apply post_users_valid; cbn [member String.eqb Ascii.eqb Bool.eqb].
  - destruct (name_OK [KStr "name"] (VStr n)) as (n' & E & ->).
    + rewrite <- En. exact Vn.
    + injection E as <-. reflexivity.
  - destruct (age_OK [KStr "age"] (VNum x)) as (x' & -> & [[E _] | E]).
    + destruct Ex as [[_ ->] | Ex]; [reflexivity | rewrite <- Ex; exact Va].
    + discriminate E.
    + injection E as <-. reflexivity.
  - rewrite email_schema_string, emailRegex_lower, Vs, toLowerCase_idempotent.
    reflexivity.
Qed.

Lemma post_users_idempotent_example :
  post_users (VObj [("name", VStr "Foo"); ("email", VStr "Foo@BAR.com")])
  = status_json 201
      (ValidatedUser {| Users.name := "Foo"; Users.age := Some 28%Q;
                        Users.email := "foo@bar.com" |})
  /\ user_json {| Users.name := "Foo"; Users.age := Some 28%Q;
                  Users.email := "foo@bar.com" |}
     = VObj [("name", VStr "Foo"); ("age", VNum 28); ("email", VStr "foo@bar.com")]
  /\ post_users (VObj [("name", VStr "Foo"); ("age", VNum 28);
                       ("email", VStr "foo@bar.com")])
     = status_json 201
         (ValidatedUser {| Users.name := "Foo"; Users.age := Some 28%Q;
                           Users.email := "foo@bar.com" |}).
Proof.
  split; [reflexivity|]. split; [reflexivity|].
  apply (post_users_idempotent
           (VObj [("name", VStr "Foo"); ("email", VStr "Foo@BAR.com")])
           {| Users.name := "Foo"; Users.age := Some 28%Q; Users.email := "foo@bar.com" |}).
  reflexivity.
Defined.

(** X13. For emails of ASCII code units, the answer of [POST /users] takes no
    account of the case of the letters of the email: two objects with the
    same name and age whose ASCII emails differ by case only get the same
    answer, accepted or rejected. *)
Theorem email_case_ignored (members members' : list (string * value)) (e e' : string) :
  member "name" members = member "name" members' ->
  member "age" members = member "age" members' ->
  member "email" members = VStr e ->
  member "email" members' = VStr e' ->
  ascii_only e = true ->
  ascii_only e' = true ->
  toLowerCase e = toLowerCase e' ->
  post_users (VObj members) = post_users (VObj members').
Proof.
  intros Hn Ha He He' _ _ Hcase. unfold post_users, parse.
  rewrite !UserSchema_object, Hn, Ha, He, He', !email_schema_string.
  rewrite <- (emailRegex_lower e), <- (emailRegex_lower e'), Hcase. reflexivity.
Qed.

Lemma email_case_ignored_example :
  ascii_only "Ada@Example.com" = true
  /\ ascii_only "ADA@EXAMPLE.COM" = true
  /\ toLowerCase "Ada@Example.com" = toLowerCase "ADA@EXAMPLE.COM"
  /\ post_users (VObj [("name", VStr "Ada"); ("email", VStr "Ada@Example.com")])
     = post_users (VObj [("name", VStr "Ada"); ("email", VStr "ADA@EXAMPLE.COM")]).
Proof.
  split; [reflexivity|]. split; [reflexivity|]. split; [reflexivity|].
  apply (email_case_ignored
           [("name", VStr "Ada"); ("email", VStr "Ada@Example.com")]
           [("name", VStr "Ada"); ("email", VStr "ADA@EXAMPLE.COM")]
           "Ada@Example.com" "ADA@EXAMPLE.COM"); reflexivity.
Defined.

(** ** Digits written and read back *)

Lemma digit_unit_code c :
  is_digit c = true -> digit_unit (Z.of_N (code_unit c) - 48) = c.
Proof.
  unfold is_digit, in_range, digit_unit. intros H.
  apply andb_true_iff in H as [Hlo Hhi]. apply N.leb_le in Hlo.
  replace (48 + Z.to_N (Z.of_N (code_unit c) - 48))%N with (code_unit c) by lia.
  apply ascii_N_embedding.
Qed.

Lemma digit_code_range c :
  is_digit c = true -> (0 <= Z.of_N (code_unit c) - 48 <= 9)%Z.
Proof.
  unfold is_digit, in_range. intros H.
  apply andb_true_iff in H as [Hlo Hhi]. apply N.leb_le in Hlo. apply N.leb_le in Hhi. lia.
Qed.

(** [pad], from its first digit on. *)
Lemma pad_first width n :
  pad (S width) n
  = String (digit_unit ((n / 10 ^ Z.of_nat width) mod 10)%Z) (pad width n).
Proof.
  revert n. induction width as [|w IH]; intros n.
  - cbn [pad]. rewrite Z.pow_0_r, Z.div_1_r. reflexivity.
  - change (pad (S (S w)) n)
      with (pad (S w) (n / 10) ++ String (digit_unit (n mod 10)%Z) EmptyString).
    rewrite IH. cbn [append pad]. f_equal. f_equal. f_equal.
    rewrite Nat2Z.inj_succ, Z.pow_succ_r by lia.
    rewrite Z.div_div by lia. reflexivity.
Qed.

Lemma digits_written_back s :
  forall_units is_digit s = true ->
  forall acc, (0 <= acc)%Z ->
    pad (String.length s) (digits_value acc s) = s
    /\ (digits_value acc s / 10 ^ Z.of_nat (String.length s) = acc)%Z
    /\ (0 <= digits_value acc s)%Z.
Proof.
  induction s as [|c s IH]; intros H acc Hacc.
  - cbn. rewrite Z.div_1_r. repeat split. exact Hacc.
  - cbn [forall_units] in H. apply andb_true_iff in H as [Hc Hs].
    pose proof (digit_code_range c Hc) as Hr.
    cbn [digits_value String.length].
    destruct (IH Hs (10 * acc + (Z.of_N (code_unit c) - 48))%Z) as (Hpad & Hdiv & Hpos);
      [lia|].
    split; [|split; [|exact Hpos]].
    + rewrite pad_first, Hdiv, Hpad. f_equal.
      replace ((10 * acc + (Z.of_N (code_unit c) - 48)) mod 10)%Z
        with (Z.of_N (code_unit c) - 48)%Z by (Z.div_mod_to_equations; lia).
      apply digit_unit_code, Hc.
    + rewrite Nat2Z.inj_succ, Z.pow_succ_r by lia.
      assert (0 < 10 ^ Z.of_nat (String.length s))%Z by (apply Z.pow_pos_nonneg; lia).
      replace (10 * 10 ^ Z.of_nat (String.length s))%Z
        with (10 ^ Z.of_nat (String.length s) * 10)%Z by lia.
      rewrite <- Z.div_div by lia. rewrite Hdiv.
      Z.div_mod_to_equations. lia.
Qed.

(** What [number_at] read: its digits written back are the piece it read,
    and it is below the power of ten of its length. *)
Lemma number_at_Some start len s n :
  number_at start len s = Some n ->
  pad len n = substring start len s /\ (0 <= n < 10 ^ Z.of_nat len)%Z.
Proof.
  unfold number_at. intros H.
  destruct (String.length (substring start len s) =? len)%nat eqn:El; [|discriminate H].
  destruct (forall_units is_digit (substring start len s)) eqn:Ed; [|discriminate H].
  injection H as <-. apply Nat.eqb_eq in El.
  destruct (digits_written_back _ Ed 0%Z) as (Hpad & Hdiv & Hpos); [lia|].
  rewrite El in Hpad, Hdiv. split; [exact Hpad|]. split; [exact Hpos|].
  assert (0 < 10 ^ Z.of_nat len)%Z by (apply Z.pow_pos_nonneg; lia).
  apply Z.div_small_iff in Hdiv; lia.
Qed.

(** ** Pieces of strings *)

Lemma length_append a b :
  String.length (a ++ b) = (String.length a + String.length b)%nat.
Proof.
  induction a as [|c a IH]; cbn; [reflexivity | rewrite IH; reflexivity].
Qed.

Lemma substring_whole s : substring 0 (String.length s) s = s.
Proof.
  induction s as [|c s IH]; cbn; [reflexivity | rewrite IH; reflexivity].
Qed.

Lemma substring_prefix a b : substring 0 (String.length a) (a ++ b) = a.
Proof.
  induction a as [|c a IH]; cbn.
  - destruct b; reflexivity.
  - rewrite IH. reflexivity.
Qed.

Lemma substring_suffix a b m :
  substring (String.length a) m (a ++ b) = substring 0 m b.
Proof.
  induction a as [|c a IH]; cbn; [reflexivity | exact IH].
Qed.

Lemma drop_prefix a b : drop (String.length a) (a ++ b) = b.
Proof.
  unfold drop. rewrite length_append, substring_suffix.
  replace (String.length a + String.length b - String.length a)%nat
    with (String.length b) by lia.
  apply substring_whole.
Qed.

Lemma option_bind_Some {A B} (o : option A) (k : A -> option B) b :
  option_bind o k = Some b -> exists a, o = Some a /\ k a = Some b.
Proof.
  destruct o as [a|]; cbn; [eauto | discriminate].
Qed.

Lemma guard_Some b u : guard b = Some u -> b = true.
Proof.
  destruct b; [reflexivity | discriminate].
Qed.

(** What a date that [parse_date] reads is made of. *)
Lemma parse_date_Some s day :
  parse_date s = Some day ->
  exists y m d,
    String.length s = 10%nat
    /\ s = pad 4 y ++ "-" ++ pad 2 m ++ "-" ++ pad 2 d
    /\ (0 <= y <= 9999 /\ 1 <= m <= 12 /\ 1 <= d <= DaysInMonth y (m - 1))%Z
    /\ day = MakeDay y (m - 1) d.
Proof.
  unfold parse_date. intros H.
  apply option_bind_Some in H as (y & Hy & H).
  apply option_bind_Some in H as (m & Hm & H).
  apply option_bind_Some in H as (d & Hd & H).
  apply option_bind_Some in H as (u & Hg & H). apply guard_Some in Hg.
  apply option_bind_Some in H as (u' & Hr & H). apply guard_Some in Hr.
  injection H as <-.
  apply andb_true_iff in Hg as [Hg Hlen]. apply andb_true_iff in Hg as [H4 H7].
  apply Nat.eqb_eq in Hlen.
  apply andb_true_iff in Hr as [Hr Hd2]. apply andb_true_iff in Hr as [Hr Hd1].
  apply andb_true_iff in Hr as [Hm1 Hm2].
  apply Z.leb_le in Hm1, Hm2, Hd1, Hd2.
  apply number_at_Some in Hy as [Py By], Hm as [Pm Bm], Hd as [Pd Bd].
  exists y, m, d. split; [exact Hlen|]. split; [|split; [|reflexivity]].
  - rewrite Py, Pm, Pd.
    do 10 (destruct s as [|? s]; [discriminate Hlen|]).
    destruct s; [|discriminate Hlen].
    unfold unit_at_is in H4, H7. cbn [String.get] in H4, H7.
    apply Ascii.eqb_eq in H4, H7. subst. reflexivity.
  - change (10 ^ Z.of_nat 4)%Z with 10000%Z in By. lia.
Qed.

(** What a time that [parse_time] reads is: a time within the day, written
    in eight units, or in twelve with a dot after the seconds. *)
Lemma parse_time_Some s time :
  parse_time s = Some time ->
  (0 <= time < msPerDay)%Z
  /\ (String.length s = 8%nat
      \/ String.length s = 12%nat /\ unit_at_is 8 "." s = true).
Proof.
  unfold parse_time. intros H.
  apply option_bind_Some in H as (h & Hh & H).
  apply option_bind_Some in H as (mi & Hmi & H).
  apply option_bind_Some in H as (sec & Hsec & H).
  apply option_bind_Some in H as (ms & Hms & H).
  apply option_bind_Some in H as (u & Hg & H).
  apply option_bind_Some in H as (u' & Hr & H). apply guard_Some in Hr.
  injection H as <-.
  apply andb_true_iff in Hr as [Hr Hs]. apply andb_true_iff in Hr as [Hh' Hmi'].
  apply Z.leb_le in Hh', Hmi', Hs.
  apply number_at_Some in Hh as [_ Bh], Hmi as [_ Bmi], Hsec as [_ Bsec].
  assert (Hlen : (0 <= ms < 1000)%Z
                 /\ (String.length s = 8%nat
                     \/ String.length s = 12%nat /\ unit_at_is 8 "." s = true)).
  { destruct (String.length s =? 8)%nat eqn:E8.
    - injection Hms as <-. apply Nat.eqb_eq in E8. split; [lia | left; exact E8].
    - destruct ((String.length s =? 12)%nat && unit_at_is 8 "." s) eqn:E12;
        [|discriminate Hms].
      apply andb_true_iff in E12 as [E12 Edot]. apply Nat.eqb_eq in E12.
      apply number_at_Some in Hms as [_ Bms].
      change (10 ^ Z.of_nat 3)%Z with 1000%Z in Bms.
      split; [exact Bms | right; split; assumption]. }
  destruct Hlen as [Bms Hlen]. split; [|exact Hlen].
  unfold MakeTime, msPerDay, msPerHour, msPerMinute, msPerSecond. lia.
Qed.

(** A date and a time that are read, put together with the letter T and the
    offset Z, are read as that time of that day. *)
Lemma parse_date_time_utc date time day tod :
  parse_date date = Some day ->
  parse_time time = Some tod ->
  parse_date_time (date ++ "T" ++ time ++ "Z") = Some (MakeDate day tod).
Proof.
  intros Hd Ht.
  destruct (parse_date_Some date day Hd) as (_ & _ & _ & Hlen & _).
  destruct (parse_time_Some time tod Ht) as (_ & Htlen).
  unfold parse_date_time.
  assert (Hprefix : forall rest, substring 0 10 (date ++ rest) = date)
    by (intros rest; rewrite <- Hlen; apply substring_prefix).
  assert (Hdrop : forall rest, drop 10 (date ++ rest) = rest)
    by (intros rest; rewrite <- Hlen; apply drop_prefix).
  rewrite Hprefix, Hdrop, Hd. cbn [option_bind append].
  assert (Hn : (if unit_at_is 8 "." (time ++ "Z") then 12%nat else 8%nat)
               = String.length time).
  { unfold unit_at_is in *. destruct Htlen as [E8 | [E12 Edot]].
    - replace (String.get 8 (time ++ "Z")) with (String.get 0 "Z").
      + rewrite E8. reflexivity.
      + rewrite (append_correct2 time "Z" 0), E8. reflexivity.
    - rewrite <- (append_correct1 time "Z" 8) by lia.
      rewrite Edot, E12. reflexivity. }
  rewrite Hn, substring_prefix, drop_prefix, Ht. cbn [option_bind parse_offset].
  rewrite Z.sub_0_r. reflexivity.
Qed.

Lemma MakeDay_range y m d :
  (0 <= y <= 9999)%Z -> (1 <= m <= 12)%Z -> (1 <= d <= DaysInMonth y (m - 1))%Z ->
  (-720000 <= MakeDay y (m - 1) d <= 2940000)%Z.
Proof.
  intros Hy Hm Hd. unfold DaysInMonth in Hd. cbv zeta in Hd. unfold MakeDay.
  set (leap := if leap_year y then 1%Z else 0%Z) in *.
  assert (Hl : (0 <= leap <= 1)%Z) by (unfold leap; destruct (leap_year y); lia).
  assert (Hm' : (0 <= m - 1 <= 11)%Z) by lia.
  pose proof (month_start_bounds leap (m - 1) Hl Hm') as Hb.
  unfold DayFromYear. Z.div_mod_to_equations. lia.
Qed.

(** The date part of the ISO string of a UTC timestamp is the date the
    timestamp was written with. *)
Lemma iso_date_of_utc host_date_parse date time day tod :
  parse_date date = Some day ->
  parse_time time = Some tod ->
  exists t,
    new_Date host_date_parse (date ++ "T" ++ time ++ "Z") = Some t
    /\ iso_date t = date.
Proof.
  intros Hd Ht.
  destruct (parse_date_Some date day Hd) as (y & m & d & _ & Hdate & (Hy & Hm & Hdd) & ->).
  destruct (parse_time_Some time tod Ht) as (Htod & _).
  pose proof (MakeDay_range y m d Hy Hm Hdd) as Hrange.
  exists (MakeDate (MakeDay y (m - 1) d) tod). split.
  - unfold new_Date, Date_parse.
    rewrite (parse_date_time_utc date time _ tod Hd Ht). cbn [option_bind].
    unfold TimeClip.
    destruct (Z.abs (MakeDate (MakeDay y (m - 1) d) tod) <=? 8640000000000000)%Z eqn:E;
      [reflexivity|].
    apply Z.leb_gt in E. unfold MakeDate, msPerDay in *. lia.
  - rewrite Hdate. apply iso_date_calendar; try assumption.
    unfold Day, MakeDate, msPerDay in *. Z.div_mod_to_equations. lia.
Qed.

(** X14. For a registration date written as a UTC timestamp, a date
    [YYYY-MM-DD], the letter T, a time [HH:mm:ss] or [HH:mm:ss.sss] and the
    letter Z, all in range, random-login answers 200 with that date, as it
    is written, for [registeredDate], on every runtime. *)
Theorem random_login_utc_timestamp
  (host_date_parse : string -> option Z) (data item : value)
  (validatedData : RandomUser.ApiResponse) (username date time : string) (day tod : Z) :
  parse RandomUser.RandomUserApiResponseSchema data = Normal validatedData ->
  first_result data = Some item ->
  get "username" (get "login" item) = VStr username ->
  get "date" (get "registered" item) = VStr (date ++ "T" ++ time ++ "Z") ->
  parse_date date = Some day ->
  parse_time time = Some tod ->
  random_login host_date_parse (Json data)
  = json (LoginResult username date (username ++ " (registered on " ++ date ++ ")")).
Proof.
  intros H Hitem Hname Hdate Hd Ht.
  pose proof (validated_first data validatedData H) as F.
  rewrite Hitem in F. destruct F as (person & E & F).
  destruct (validated_person [] item person E) as (_ & _ & _ & _ & _ & Hu & Hr).
  destruct (routes_on_person integers_only host_date_parse data _ _ H F) as (_ & _ & ->).
  rewrite Hname in Hu. injection Hu as <-.
  rewrite Hdate in Hr. injection Hr as <-.
  destruct (iso_date_of_utc host_date_parse date time day tod Hd Ht) as (t & Hnew & Hiso).
  change (date ++ "T" ++ time ++ "Z") with (date ++ String "T" (time ++ "Z")) in Hnew.
  rewrite Hnew, split_0_iso_string, Hiso. reflexivity.
Qed.

Lemma random_login_utc_timestamp_example :
  parse_date "2007-07-09" = Some 13703%Z
  /\ parse_time "05:51:59.390" = Some 21119390%Z
  /\ random_login standard_dates_only
       (Json (api_response [ada (VStr "SW1A 1AA") "2007-07-09T05:51:59.390Z"]))
     = json (LoginResult "ada" "2007-07-09" "ada (registered on 2007-07-09)").
Proof.
  split; [reflexivity|]. split; [reflexivity|].
  apply (random_login_utc_timestamp standard_dates_only
           (api_response [ada (VStr "SW1A 1AA") "2007-07-09T05:51:59.390Z"])
           (ada (VStr "SW1A 1AA") "2007-07-09T05:51:59.390Z")
           {| RandomUser.results :=
                [ {| RandomUser.name := {| RandomUser.first := "Ada";
                                           RandomUser.last := "Lovelace" |};
                     RandomUser.location := {| RandomUser.country := "UK";
                                               RandomUser.city := "London";
                                               RandomUser.postcode := inl "SW1A 1AA" |};
                     RandomUser.login := {| RandomUser.username := "ada" |};
                     RandomUser.registered :=
                       {| RandomUser.date := "2007-07-09T05:51:59.390Z" |} |} ] |}
           "ada" "2007-07-09" "05:51:59.390" 13703%Z 21119390%Z); reflexivity.
Defined.

Lemma speaks_merge {A B C} allowed (f : A -> B -> C) ra rb :
  speaks allowed ra = true -> speaks allowed rb = true ->
  speaks allowed (merge f ra rb) = true.
Proof.
  unfold speaks. intros Ha Hb. rewrite issues_of_merge, forallb_app, Ha, Hb. reflexivity.
Qed.

Lemma speaks_string p data : speaks upstream_messages (z_string [] p data) = true.
Proof. destruct data; reflexivity. Qed.

Lemma speaks_postcode p data :
  speaks upstream_messages (z_union (z_string []) (z_number []) p data) = true.
Proof. destruct data; reflexivity. Qed.

Lemma speaks_person p data : speaks upstream_messages (RandomUser.PersonSchema p data) = true.
Proof.
  unfold RandomUser.PersonSchema.
  destruct data as [| | | | | |members]; try reflexivity.
  unfold z_object at 1. unfold shape_field, shape_of.
  repeat apply speaks_merge; try reflexivity.
  - destruct (member "name" members) as [| | | | | |name]; try reflexivity.
    cbn [z_object]. repeat apply speaks_merge; try reflexivity; apply speaks_string.
  - destruct (member "location" members) as [| | | | | |location]; try reflexivity.
    cbn [z_object]. repeat apply speaks_merge; try reflexivity;
      solve [apply speaks_string | apply speaks_postcode].
  - destruct (member "login" members) as [| | | | | |login]; try reflexivity.
    cbn [z_object]. repeat apply speaks_merge; try reflexivity; apply speaks_string.
  - destruct (member "registered" members) as [| | | | | |registered]; try reflexivity.
    cbn [z_object]. repeat apply speaks_merge; try reflexivity; apply speaks_string.
Qed.

Lemma speaks_items p i items :
  speaks upstream_messages (parse_items RandomUser.PersonSchema p i items) = true.
Proof.
  revert i. induction items as [|item rest IH]; intros i; [reflexivity|].
  cbn [parse_items]. apply speaks_merge; [apply speaks_person | apply IH].
Qed.

Lemma speaks_response data :
  speaks upstream_messages (RandomUser.RandomUserApiResponseSchema [] data) = true.
Proof.
  destruct data as [| | | | | |members]; try reflexivity.
  unfold RandomUser.RandomUserApiResponseSchema, z_object, shape_field, shape_of.
  apply speaks_merge; [reflexivity|].
  destruct (member "results" members) as [| | | | |items|]; try reflexivity.
  apply speaks_items.
Qed.

Lemma speaks_In {A} allowed (r : ParseReturn A) :
  speaks allowed r = true ->
  Forall (fun issue => In (message issue) allowed) (issues_of r).
Proof.
  unfold speaks. intros H. apply Forall_forall. intros issue Hin.
  rewrite forallb_forall in H. specialize (H issue Hin).
  unfold one_of in H. apply existsb_exists in H as (m & Hm & E).
  apply String.eqb_eq in E. subst m. exact Hm.
Qed.

(** X15. The details of the validation 500 of the random routes say nothing of
    the values of the upstream data: the message of each entry is "Invalid
    input" or the message of a type check, "Required" or "Expected ...,
    received ..." with the names of two types. *)
Theorem upstream_details_name_types_only (data : value) (errors : list ZodIssue) :
  random_person (Json data)
  = status_json 500 (InvalidResponse "Invalid response from RandomUser API" errors) ->
  Forall (fun issue => In (message issue) upstream_messages) errors.
Proof.
  intros H. unfold random_person in H. cbn [await bind] in H.
  destruct (parse RandomUser.RandomUserApiResponseSchema data) as [v|e] eqn:E.
  - cbn [bind] in H. destruct (nth_error (RandomUser.results v) 0); discriminate H.
  - apply parse_Throw in E as [-> _]. cbn in H. injection H as <-.
    apply speaks_In, speaks_response.
Qed.

Lemma upstream_details_name_types_only_example :
  random_person (Json (api_response [ada (VStr "SW1A 1AA") "2020-05-01"; VStr "secret"]))
  = status_json 500
      (InvalidResponse "Invalid response from RandomUser API"
         [mkIssue invalid_type [KStr "results"; KIdx 1] "Expected object, received string"])
  /\ Forall (fun issue => In (message issue) upstream_messages)
       [mkIssue invalid_type [KStr "results"; KIdx 1] "Expected object, received string"].
Proof.
  split; [reflexivity|].
  apply (upstream_details_name_types_only
           (api_response [ada (VStr "SW1A 1AA") "2020-05-01"; VStr "secret"])).
  reflexivity.
Defined.

Lemma speaks_name p v : speaks user_messages (Users.name_schema p v) = true.
Proof.
  destruct v; try reflexivity.
  unfold speaks. rewrite name_issues.
  destruct (String.length s <? 3)%nat, (12 <? String.length s)%nat; reflexivity.
Qed.

Lemma speaks_age p v : speaks user_messages (Users.age_schema p v) = true.
Proof.
  destruct v; try reflexivity.
  unfold speaks. rewrite age_number, issues_of_map_return, issues_of_with_issues.
  destruct (isInteger x), (Qlt_bool x 18), (Qlt_bool 100 x); reflexivity.
Qed.

Lemma speaks_email p v : speaks user_messages (Users.email_schema p v) = true.
Proof.
  destruct v; try reflexivity.
  unfold speaks. rewrite email_issues.
  destruct (emailRegex_test s); reflexivity.
Qed.

Lemma speaks_user members :
  Forall (fun issue => In (message issue) user_messages) (user_issues members).
Proof.
  unfold user_issues. rewrite !Forall_app. repeat split; apply speaks_In.
  - apply speaks_name.
  - apply speaks_age.
  - apply speaks_email.
Qed.

Lemma fields_of_user members :
  Forall (fun issue => In (path issue) [[KStr "name"]; [KStr "age"]; [KStr "email"]])
    (user_issues members).
Proof.
  unfold user_issues. rewrite !Forall_app.
  destruct (name_issues_shape [KStr "name"] (member "name" members)) as [Fn _].
  destruct (age_issues_shape [KStr "age"] (member "age" members)) as [Fa _].
  destruct (email_issues_shape [KStr "email"] (member "email" members)) as [Fe _].
  repeat split.
  - eapply Forall_impl; [|exact Fn]. intros issue ->. left. reflexivity.
  - eapply Forall_impl; [|exact Fa]. intros issue ->. right. left. reflexivity.
  - eapply Forall_impl; [|exact Fe]. intros issue ->. right. right. left. reflexivity.
Qed.

(** X16. The details of a 400 of [POST /users] say nothing of the values
    submitted: each entry has for field the empty string (the body itself),
    "name", "age" or "email", and for message one of the six messages of the
    schema or the message of a type check. *)
Theorem user_details_name_fields_only
  (req_body : value) (error : string) (details : list Users.Detail) :
  post_users req_body = status_json 400 (ValidationFailed error details) ->
  Forall (fun detail =>
            In (Users.field detail) [""; "name"; "age"; "email"]
            /\ In (Users.message detail) user_messages) details.
Proof.
  intros H.
  destruct req_body as [| | | | | |members];
    try (injection H as _ <-; repeat constructor; cbn; tauto).
  apply post_users_rejected in H as [-> _].
  apply Forall_forall. intros detail Hin.
  apply in_map_iff in Hin as (issue & <- & Hin).
  pose proof (speaks_user members) as Hm. pose proof (fields_of_user members) as Hf.
  rewrite Forall_forall in Hm, Hf. split.
  - unfold detail_of. cbn [Users.field].
    destruct (Hf issue Hin) as [<- | [<- | [<- | []]]]; cbn; tauto.
  - exact (Hm issue Hin).
Qed.

Lemma user_details_name_fields_only_example :
  post_users (VObj [("name", VStr "a very long secret name"); ("email", VNum 7);
                    ("age", VNum 200)])
  = status_json 400
      (ValidationFailed "Validation failed"
         [ {| Users.field := "name";
              Users.message := "Name must be at most 12 characters" |};
           {| Users.field := "age"; Users.message := "Age must be at most 100" |};
           {| Users.field := "email";
              Users.message := "Expected string, received number" |} ])
  /\ Forall (fun detail =>
               In (Users.field detail) [""; "name"; "age"; "email"]
               /\ In (Users.message detail) user_messages)
       [ {| Users.field := "name";
            Users.message := "Name must be at most 12 characters" |};
         {| Users.field := "age"; Users.message := "Age must be at most 100" |};
         {| Users.field := "email";
            Users.message := "Expected string, received number" |} ].
Proof.
  split; [reflexivity|].
  apply (user_details_name_fields_only
           (VObj [("name", VStr "a very long secret name"); ("email", VNum 7);
                  ("age", VNum 200)])
           "Validation failed").
  reflexivity.
Defined.
